(** * Tabular Q-learning agent for Mountain Car (Week3/Assignment-1)

    A shallow embedding of [mountain_car.py]: the class [QAgent] with its
    discretiser [get_state_index], the temporal-difference [update], the
    policy ([get_action], [greedy_action]), the driver [env_step] and the
    end-of-episode bookkeeping of [train].

    Numbers.  The Python code computes with machine numbers (Python [float],
    numpy scalars) and Python [int].  The agent is therefore written once,
    over a small interface [Number] of the arithmetic the code uses, and read
    at three instances:
      - [spec_float] at precision 24, IEEE-754 binary32: the observations
        and the bounds of a gymnasium environment are numpy [float32], and
        the discretiser adds, subtracts, divides and compares them as such;
        what the discretiser does on the machine is stated at this instance;
      - [float], Rocq's primitive IEEE-754 binary64 numbers, which is the
        arithmetic CPython performs on [float]: the worked updates, the
        exploration schedule, whose constants are all in [__init__], and the
        discretiser as a numpy that promotes [float32 / int] to [float64]
        runs it;
      - [Q], exact rational arithmetic, for the properties in which
        rounding plays no part or moves last digits only.
    What holds whatever the arithmetic is proved for every instance.
    Integer indices are [Z], as Python's [int] is unbounded.  The bucket
    counts are [positive]: the code has the literal [[25, 25]].

    Failure.  Indexing a list or an array out of range raises [IndexError];
    the [while] loop of the discretiser may run for ever.  Both are results:
    [IndexError] and [OutOfFuel] (the loop was cut after [fuel] tests). *)

From stdpp Require Import base list.
From Stdlib Require Import ZArith QArith Qround Qpower Lqa Lia.
From Stdlib Require Import PrimFloat Uint63 SpecFloat.

Local Open Scope Z_scope.

(** ** Results of partial computations *)

Inductive result (A : Type) : Type :=
| Ok (a : A)
| IndexError
| OutOfFuel.
Arguments Ok {A} a.
Arguments IndexError {A}.
Arguments OutOfFuel {A}.

#[global] Instance result_ret : MRet result := fun _ a => Ok a.
#[global] Instance result_bind : MBind result := fun _ _ f m =>
  match m with
  | Ok a => f a
  | IndexError => IndexError
  | OutOfFuel => OutOfFuel
  end.

(** ** Python and numpy indexing

    An index [i] into a sequence of length [n] is valid when [-n <= i < n];
    a negative index counts from the end. *)

Definition py_index (n : nat) (i : Z) : result nat :=
  if decide (0 ≤ i < Z.of_nat n) then Ok (Z.to_nat i)
  else if decide (- Z.of_nat n ≤ i < 0) then Ok (Z.to_nat (Z.of_nat n + i))
  else IndexError.

Definition getitem {A : Type} (l : list A) (i : Z) : result A :=
  k ← py_index (length l) i;
  match l !! k with
  | Some a => Ok a
  | None => IndexError
  end.

Definition setitem {A : Type} (l : list A) (i : Z) (v : A) : result (list A) :=
  k ← py_index (length l) i;
  Ok (<[k := v]> l).

(** ** The arithmetic the code uses *)

Class Number (R : Type) : Type := {
  of_Z : Z → R;
  num_add : R → R → R;
  num_sub : R → R → R;
  num_mul : R → R → R;
  num_div : R → R → R;
  num_gt : R → R → bool;
}.

Declare Scope num_scope.
Delimit Scope num_scope with num.
Infix "+" := num_add : num_scope.
Infix "-" := num_sub : num_scope.
Infix "*" := num_mul : num_scope.
Infix "/" := num_div : num_scope.
Notation "x >? y" := (num_gt x y) (at level 70, no associativity) : num_scope.
Notation "x <? y" := (num_gt y x) (at level 70, no associativity) : num_scope.

(** Exact rationals. *)
#[global] Instance Q_number : Number Q := {|
  of_Z := inject_Z;
  num_add := Qplus;
  num_sub := Qminus;
  num_mul := Qmult;
  num_div := Qdiv;
  num_gt := fun x y => negb (Qle_bool x y);
|}.

(** IEEE-754 binary64.  The integers the code converts are small, so the
    conversion through [Uint63] is exact. *)
Definition float_of_Z (z : Z) : float :=
  match z with
  | Z0 => PrimFloat.zero
  | Zpos _ => PrimFloat.of_uint63 (Uint63.of_Z z)
  | Zneg p => PrimFloat.opp (PrimFloat.of_uint63 (Uint63.of_Z (Zpos p)))
  end.

#[global] Instance float_number : Number float := {|
  of_Z := float_of_Z;
  num_add := PrimFloat.add;
  num_sub := PrimFloat.sub;
  num_mul := PrimFloat.mul;
  num_div := PrimFloat.div;
  num_gt := fun x y => PrimFloat.ltb y x;
|}.

(** IEEE-754 binary32, numpy's [float32]: 24 bits of precision, exponents
    below 128, every operation rounded to nearest even.  A comparison with
    a NaN is false. *)
Definition binary32_of_Z (z : Z) : spec_float :=
  binary_normalize 24 128 z 0 false.

(** The values of [spec_float] that are binary32 numbers: zeros,
    infinities, NaN, and the finite ones whose mantissa and exponent are in
    the canonical form of the format.  What is stated for all values of the
    type holds for these; the inputs of the examples are among them. *)
Definition is_binary32 (x : spec_float) : bool := valid_binary 24 128 x.

#[global] Instance binary32_number : Number spec_float := {|
  of_Z := binary32_of_Z;
  num_add := SFadd 24 128;
  num_sub := SFsub 24 128;
  num_mul := SFmul 24 128;
  num_div := SFdiv 24 128;
  num_gt := fun x y => SFltb y x;
|}.

(** Python's [max] keeps its first argument unless a later one is strictly
    greater. *)
Definition py_max2 {R} `{Number R} (a b : R) : R :=
  if (b >? a)%num then b else a.

Definition py_max3 {R} `{Number R} (a b c : R) : R :=
  py_max2 (py_max2 a b) c.

(** ** The agent *)

Section Agent.
Context {R : Type} `{Number R}.
Local Open Scope num_scope.

Record QAgent : Type := mkQAgent {
  state : list R;
  observation_space_size : nat;
  actions : nat;
  observation_space_low : list R;
  observation_space_high : list R;
  discrete_sizes : list positive;
  alpha : R;
  gamma : R;
  num_train_episodes : Z;
  epsilon : R;
  num_episodes_decay : positive;
  epsilon_decay : R;
  q_table : list (list (list R));
}.

Definition set_q_table (self : QAgent) (t : list (list (list R))) : QAgent :=
  mkQAgent (state self) (observation_space_size self) (actions self)
    (observation_space_low self) (observation_space_high self)
    (discrete_sizes self) (alpha self) (gamma self)
    (num_train_episodes self) (epsilon self) (num_episodes_decay self)
    (epsilon_decay self) t.

Definition set_state (self : QAgent) (s : list R) : QAgent :=
  mkQAgent s (observation_space_size self) (actions self)
    (observation_space_low self) (observation_space_high self)
    (discrete_sizes self) (alpha self) (gamma self)
    (num_train_episodes self) (epsilon self) (num_episodes_decay self)
    (epsilon_decay self) (q_table self).

Definition set_epsilon (self : QAgent) (e : R) : QAgent :=
  mkQAgent (state self) (observation_space_size self) (actions self)
    (observation_space_low self) (observation_space_high self)
    (discrete_sizes self) (alpha self) (gamma self)
    (num_train_episodes self) e (num_episodes_decay self)
    (epsilon_decay self) (q_table self).

(** [__init__], lines 27-58.  What the environment supplies (the first
    observation, the number of actions, the bounds of the observation
    space) and the random table drawn by numpy are arguments. *)
Definition init (state0 : list R) (n_actions : nat) (low high : list R)
    (table : list (list (list R))) : QAgent :=
  let epsilon0 := of_Z 1 in
  let decay_episodes := 15000%positive in
  {| state := state0;
     observation_space_size := length state0;
     actions := n_actions;
     observation_space_low := low;
     observation_space_high := high;
     discrete_sizes := [25; 25]%positive;
     alpha := of_Z 1 / of_Z 10;
     gamma := of_Z 95 / of_Z 100;
     num_train_episodes := 25000;
     epsilon := epsilon0;
     num_episodes_decay := decay_episodes;
     epsilon_decay := epsilon0 / of_Z (Zpos decay_episodes);
     q_table := table |}.

(** [get_state_index], lines 70-79: the [while] loop of one dimension.
    [x] counts the boundaries passed, [l] is the lower edge of the current
    interval. *)
Fixpoint while_loop (fuel : nat) (st : list R) (i : Z) (interval_size : R)
    (x : Z) (l : R) : result Z :=
  match fuel with
  | O => OutOfFuel
  | S fuel' =>
      s ← getitem st i;
      if s >? l + interval_size
      then while_loop fuel' st i interval_size (x + 1)%Z (l + interval_size)
      else Ok x
  end.

(** The body of the [for] loop, for one [i]. *)
Definition dimension (fuel : nat) (self : QAgent) (st : list R) (i : Z)
    : result Z :=
  l ← getitem (observation_space_low self) i;
  hi ← getitem (observation_space_high self) i;
  lo ← getitem (observation_space_low self) i;
  n ← getitem (discrete_sizes self) i;
  let interval_size := (hi - lo) / of_Z (Zpos n) in
  while_loop fuel st i interval_size 0 l.

Fixpoint for_loop (fuel : nat) (self : QAgent) (st : list R)
    (range : list nat) (indices : list Z) : result (list Z) :=
  match range with
  | [] => Ok indices
  | i :: range' =>
      x ← dimension fuel self st (Z.of_nat i);
      indices' ← setitem indices (Z.of_nat i) x;
      for_loop fuel self st range' indices'
  end.

Definition get_state_index (fuel : nat) (self : QAgent) (st : list R)
    : result (list Z) :=
  let indices := replicate (observation_space_size self) 0%Z in
  for_loop fuel self st (seq 0 (length indices)) indices.

(** [self.q_table[c0][c1][a]], read and written in place. *)
Definition q_get (self : QAgent) (c0 c1 a : Z) : result R :=
  plane ← getitem (q_table self) c0;
  row ← getitem plane c1;
  getitem row a.

Definition q_set (self : QAgent) (c0 c1 a : Z) (v : R) : result QAgent :=
  plane ← getitem (q_table self) c0;
  row ← getitem plane c1;
  row' ← setitem row a v;
  plane' ← setitem plane c1 row';
  table' ← setitem (q_table self) c0 plane';
  Ok (set_q_table self table').

(** [update], lines 81-94. *)
Definition update (fuel : nat) (self : QAgent) (st : list R) (action : Z)
    (reward : R) (next_state : list R) (is_terminal : bool)
    : result QAgent :=
  state_dis ← get_state_index fuel self st;
  if is_terminal then
    c0 ← getitem state_dis 0;
    c1 ← getitem state_dis 1;
    old ← q_get self c0 c1 action;
    q_set self c0 c1 action
      (old * (of_Z 1 - alpha self) + alpha self * reward)
  else
    next_state_dis ← get_state_index fuel self next_state;
    n0 ← getitem next_state_dis 0;
    n1 ← getitem next_state_dis 1;
    q0 ← q_get self n0 n1 0;
    q1 ← q_get self n0 n1 1;
    q2 ← q_get self n0 n1 2;
    let max_rew := py_max3 q0 q1 q2 in
    c0 ← getitem state_dis 0;
    c1 ← getitem state_dis 1;
    old ← q_get self c0 c1 action;
    q_set self c0 c1 action
      (old * (of_Z 1 - alpha self)
       + alpha self * (reward + gamma self * max_rew)).

(** [greedy_action], lines 108-118. *)
Definition greedy_action (fuel : nat) (self : QAgent) (st : list R)
    : result Z :=
  let u := 0%Z in
  ind_state ← get_state_index fuel self st;
  c0 ← getitem ind_state 0;
  c1 ← getitem ind_state 1;
  m ← q_get self c0 c1 0;
  q1 ← q_get self c0 c1 1;
  let '(m, u) := if q1 >? m then (q1, 1%Z) else (m, u) in
  q2 ← q_get self c0 c1 2;
  let u := if q2 >? m then 2%Z else u in
  Ok u.

(** [get_action], lines 96-106.  [rand] is the value [random.random()]
    returns and [pick] the one [random.randint(0,2)] would. *)
Definition get_action (fuel : nat) (self : QAgent) (rand : R) (pick : Z)
    : result Z :=
  if rand <? epsilon self then Ok pick
  else greedy_action fuel self (state self).

(** One answer of the environment's [step]. *)
Record step_result : Type := mkStep {
  sr_next_state : list R;
  sr_reward : R;
  sr_terminated : bool;
  sr_truncated : bool;
}.

(** [env_step], lines 120-131.  [env_step_of] is the environment's answer
    to each action; the second component of the result is the value
    returned, [terminated or truncated]. *)
Definition env_step (fuel : nat) (self : QAgent) (rand : R) (pick : Z)
    (env_step_of : Z → step_result) : result (QAgent * bool) :=
  action ← get_action fuel self rand pick;
  let r := env_step_of action in
  self' ← update fuel self (state self) action (sr_reward r)
            (sr_next_state r) (sr_terminated r && negb (sr_truncated r));
  Ok (set_state self' (sr_next_state r),
      sr_terminated r || sr_truncated r).

(** [train], line 156: what happens to [epsilon] when an episode ends. *)
Definition decay_epsilon (self : QAgent) : QAgent :=
  set_epsilon self (py_max2 (of_Z 0) (epsilon self - epsilon_decay self)).

(** [epsilon] after [n] completed episodes. *)
Definition epsilon_after (n : nat) (self : QAgent) : R :=
  epsilon (Nat.iter n decay_epsilon self).

End Agent.

Arguments QAgent R : clear implicits.
Arguments step_result R : clear implicits.

(** ** Training *)

Section Training.
Context {R : Type} `{Number R}.
Local Open Scope num_scope.

(** What the outside world supplies at each step [t] (the two random
    draws and the environment's answer to an action) and at each reset. *)
Record world : Type := mkWorld {
  w_random : nat → R;
  w_randint : nat → Z;
  w_step : nat → Z → step_result R;
  w_reset : nat → list R;
}.

(** [train], lines 151-153: [env_step] until it reports the end of the
    episode.  [limit] bounds the number of steps tried, [t] counts the
    steps taken since training began. *)
Fixpoint episode_loop (limit fuel : nat) (w : world) (self : QAgent R)
    (t : nat) : result (QAgent R * nat) :=
  match limit with
  | O => OutOfFuel
  | S limit' =>
      '(self', done) ← env_step fuel self (w_random w t) (w_randint w t)
                         (w_step w t);
      if done : bool then Ok (self', S t)
      else episode_loop limit' fuel w self' (S t)
  end.

(** [train], lines 150-156, for [episodes] episodes from number [ep] on.
    The evaluation pass of lines 159-161 only reads the agent and is left
    out. *)
Fixpoint train_loop (episodes limit fuel : nat) (w : world)
    (self : QAgent R) (t ep : nat) : result (QAgent R) :=
  match episodes with
  | O => Ok self
  | S episodes' =>
      '(self', t') ← episode_loop limit fuel w self t;
      let self1 := set_state self' (w_reset w ep) in
      let self2 := decay_epsilon self1 in
      train_loop episodes' limit fuel w self2 t' (S ep)
  end.

(** [train], with the number of episodes [__init__] has set. *)
Definition train (limit fuel : nat) (w : world) (self : QAgent R)
    : result (QAgent R) :=
  train_loop (Z.to_nat (num_train_episodes self)) limit fuel w self 0 1.

End Training.

Arguments world R : clear implicits.

(** ** Vocabulary of the statements

    [passes s w l m]: scanning for [s] from the edge [l] with intervals of
    width [w], [m] boundaries lie strictly below [s] and the next one does
    not. *)
Definition passes (s w l : Q) (m : nat) : Prop :=
  (m = 0%nat ∨ l + inject_Z (Z.of_nat m) * w < s)%Q
  ∧ (s <= l + (inject_Z (Z.of_nat m) + 1) * w)%Q.

(** The width of the intervals of a dimension, line 74. *)
Definition width (lo hi : Q) (n : positive) : Q :=
  ((hi - lo) / inject_Z (Zpos n))%Q.

(** Dimension [i] of the configuration and of an observation. *)
Record dim_at (self : QAgent Q) (st : list Q) (i : nat)
    (lo hi : Q) (n : positive) (s : Q) : Prop := {
  dim_low : observation_space_low self !! i = Some lo;
  dim_high : observation_space_high self !! i = Some hi;
  dim_size : discrete_sizes self !! i = Some n;
  dim_obs : st !! i = Some s;
}.

(** The bounds and the bucket counts have one entry per dimension. *)
Definition dims_ok (self : QAgent Q) : Prop :=
  length (observation_space_low self) = observation_space_size self
  ∧ length (observation_space_high self) = observation_space_size self
  ∧ length (discrete_sizes self) = observation_space_size self.

(** Every component of the observation lies within its bounds. *)
Definition in_range (self : QAgent Q) (st : list Q) : Prop :=
  length st = observation_space_size self
  ∧ ∀ (i : nat) (lo hi s : Q),
      observation_space_low self !! i = Some lo →
      observation_space_high self !! i = Some hi →
      st !! i = Some s → (lo <= s)%Q ∧ (s <= hi)%Q.

Section Vocabulary.
Context {R : Type} `{Number R}.
Local Open Scope num_scope.

(** The table seen through plain positions: the row of a cell and the
    entry of an action in it. *)
Definition row_at (self : QAgent R) (i j : nat) : option (list R) :=
  plane ← q_table self !! i; plane !! j.

Definition entry (self : QAgent R) (i j a : nat) : option R :=
  row ← row_at self i j; row !! a.

(** The table has one plane per bucket of the first dimension, one row per
    bucket of the second, one entry per action. *)
Definition table_shape (self : QAgent R) : Prop :=
  ∃ n0 n1 : positive,
    discrete_sizes self = [n0; n1]
    ∧ length (q_table self) = Pos.to_nat n0
    ∧ ∀ plane, plane ∈ q_table self →
        length plane = Pos.to_nat n1
        ∧ ∀ row, row ∈ plane → length row = actions self.

(** The lower edge [l] of line 73 after [k] passes of line 77: [low[i]]
    with [interval_size] added [k] times, one addition after the other as
    the loop performs them. *)
Definition boundary (l interval_size : R) (k : nat) : R :=
  Nat.iter k (λ b, b + interval_size) l.

(** The scan of dimension [i]: towards the component [s = state[i]], from
    [lo = low[i]], in steps of [w = interval_size] (line 74). *)
Record scan_at (self : QAgent R) (st : list R) (i : nat) (s lo w : R)
    : Prop := {
  scan_obs : st !! i = Some s;
  scan_low : observation_space_low self !! i = Some lo;
  scan_width : ∃ (hi : R) (n : positive),
    observation_space_high self !! i = Some hi
    ∧ discrete_sizes self !! i = Some n
    ∧ w = (hi - lo) / of_Z (Zpos n);
}.

(** [s] is above the first [k] boundaries of the scan and not above the
    next one: the loop condition of line 75 holds [k] times, then fails. *)
Definition stops_at (s lo w : R) (k : nat) : Prop :=
  (∀ j : nat, (j < k)%nat → (s >? boundary lo w (S j)) = true)
  ∧ (s >? boundary lo w (S k)) = false.

(** The target written by the terminal branch, line 90, and by the
    bootstrapping branch, line 94. *)
Definition terminal_value (self : QAgent R) (old reward : R) : R :=
  old * (of_Z 1 - alpha self) + alpha self * reward.

Definition bootstrap_value (self : QAgent R) (old reward max_rew : R) : R :=
  old * (of_Z 1 - alpha self) + alpha self * (reward + gamma self * max_rew).

(** What a successful [update] leaves behind: the new value at the entry
    of (cell, action), every other entry and every other field as
    before. *)
Record updated (self self' : QAgent R) (c0 c1 action : Z) (new : R)
    : Prop := {
  upd_entry :
    entry self' (Z.to_nat c0) (Z.to_nat c1) (Z.to_nat action) = Some new;
  upd_frame : ∀ i j a,
    (i, j, a) ≠ (Z.to_nat c0, Z.to_nat c1, Z.to_nat action) →
    entry self' i j a = entry self i j a;
  upd_shape : ∀ i j,
    length <$> row_at self' i j = length <$> row_at self i j;
  upd_fields : ∃ t, self' = set_q_table self t;
}.

(** The action [greedy_action] settles on, from the three values of the
    row: lines 109-118. *)
Definition greedy_choice (q0 q1 q2 : R) : Z :=
  if q2 >? (if q1 >? q0 then q1 else q0) then 2
  else if q1 >? q0 then 1 else 0.

(** One end of episode, on [epsilon] alone. *)
Definition epsilon_step (decay e : R) : R := py_max2 (of_Z 0) (e - decay).

(** A grid of unit cells over [0, 25] x [0, 25]: the cell of an observation
    is read off its integer parts.  The entry of action 0 in cell (0, 0) is
    5; the row of cell (1, 0) is [1; 2; -3], with maximum 2. *)
Definition unit_grid_of : QAgent R :=
  let row := [of_Z (-1); of_Z (-1); of_Z (-1)] in
  init [of_Z 1 / of_Z 2; of_Z 1 / of_Z 2] 3
    [of_Z 0; of_Z 0] [of_Z 25; of_Z 25]
    (<[0%nat := <[0%nat := [of_Z 5; of_Z 0; of_Z 0]]> (replicate 25 row)]>
       (<[1%nat := <[0%nat := [of_Z 1; of_Z 2; of_Z (-3)]]>
                     (replicate 25 row)]>
          (replicate 25 (replicate 25 row)))).

End Vocabulary.

(** ** Agents the examples run on *)

(** The Mountain Car configuration: position in [-1.2, 0.6], velocity in
    [-0.07, 0.07], three actions, a table of 25 x 25 x 3 entries. *)
Definition mountain_car : QAgent Q :=
  init [-1 # 2; 0]%Q 3 [-6 # 5; -7 # 100]%Q [3 # 5; 7 # 100]%Q
    (replicate 25 (replicate 25 [-1; -1; -1]%Q)).

Definition unit_grid : QAgent Q := unit_grid_of.

Definition unit_grid_binary64 : QAgent float := unit_grid_of.

(** An environment whose second bound is a single point. *)
Definition flat_velocity : QAgent Q :=
  init [0; 0]%Q 3 [0; 0]%Q [1; 0]%Q [].

(** The bounds of [MountainCar-v0] as the environment holds them, numpy
    [float32]: the values nearest -1.2, 0.6, -0.07 and 0.07. *)
Definition position_low32 : spec_float := S754_finite true 0x99999A (-23).
Definition position_high32 : spec_float := S754_finite false 0x99999A (-24).
Definition velocity_low32 : spec_float := S754_finite true 0x8F5C29 (-27).
Definition velocity_high32 : spec_float := S754_finite false 0x8F5C29 (-27).

(** [interval_size] of line 74 for the two dimensions, in binary32: the
    values nearest 0.072 and 0.0056. *)
Definition position_width32 : spec_float := S754_finite false 9663677 (-27).
Definition velocity_width32 : spec_float := S754_finite false 12025908 (-31).

(** The position one unit in the last place above [high[0]], 0.60000008. *)
Definition position_above32 : spec_float := S754_finite false 0x99999B (-24).

(** The agent of [MountainCar-v0] with the discretiser in binary32; the
    car starts at [-0.5, 0].  Of the table only the shape matters to what is
    stated of this agent: which cell an observation gets, and whether the
    cell exists. *)
Definition mountain_car_binary32 : QAgent spec_float :=
  init [S754_finite true 0x800000 (-24); S754_zero false] 3
    [position_low32; velocity_low32] [position_high32; velocity_high32]
    (replicate 25 (replicate 25 (replicate 3 (S754_zero false)))).

(** The same agent when the scan is carried out in binary64 on the
    [float32] bounds. *)
Definition mountain_car_binary64 : QAgent float :=
  init [-0x1p-1; 0]%float 3
    [-0x1.333334p+0; -0x1.1eb852p-4]%float
    [0x1.333334p-1; 0x1.1eb852p-4]%float
    (replicate 25 (replicate 25 (replicate 3 0%float))).

(** One dimension far from zero: bounds [2^25] and [2^25 + 8] in binary32,
    where neighbouring numbers are 4 apart, and [2^53], [2^53 + 4] in
    binary64, where they are 2 apart; the observation is the midpoint. *)
Definition far_binary32 : QAgent spec_float :=
  init [S754_finite false 0x800001 2] 3
    [S754_finite false 0x800000 2] [S754_finite false 0x800002 2] [].

Definition far_binary64 : QAgent float :=
  init [0x1.0000000000001p+53]%float 3
    [0x1p+53]%float [0x1.0000000000002p+53]%float [].

(** ** The exploration schedule in binary64 *)

(** For [n] further episodes from [e], [epsilon] does not go up. *)
Fixpoint nonincreasing_run (f : float → float) (n : nat) (e : float) : bool :=
  match n with
  | O => true
  | S n' => PrimFloat.leb (f e) e && nonincreasing_run f n' (f e)
  end.

(** The value [epsilon] has after 15000 episodes, about 9.06e-14. *)
Definition epsilon_residue : float := 0x1.9802ap-44%float.

(** ** Construction, evaluation and repeated updates *)

Section Construction.
Context {R : Type} `{Number R}.
Local Open Scope num_scope.

(** [__init__], line 58: the table numpy draws, of shape
    [(25, 25, actions)]; [draw i j a] is the sample at that position. *)
Definition fresh_table (n_actions : nat) (draw : nat → nat → nat → R)
    : list (list (list R)) :=
  (λ i, (λ j, draw i j <$> seq 0 n_actions) <$> seq 0 25) <$> seq 0 25.

(** The agent [__init__] returns, table included. *)
Definition fresh_agent (state0 : list R) (n_actions : nat) (low high : list R)
    (draw : nat → nat → nat → R) : QAgent R :=
  init state0 n_actions low high (fresh_table n_actions draw).

(** [agent_eval], lines 136-146: greedy steps in the evaluation environment
    until it reports the end of the episode.  [eval_step t] is that
    environment's answer at its step [t]; the result is the list of the
    actions sent to it (rendering shows nothing of the agent). *)
Fixpoint agent_eval_loop (limit fuel : nat) (self : QAgent R)
    (eval_step : nat → Z → step_result R) (eval_state : list R) (t : nat)
    : result (list Z) :=
  match limit with
  | O => OutOfFuel
  | S limit' =>
      action ← greedy_action fuel self eval_state;
      let r := eval_step t action in
      if sr_terminated r || sr_truncated r then Ok [action]
      else
        trace ← agent_eval_loop limit' fuel self eval_step
                  (sr_next_state r) (S t);
        Ok (action :: trace)
  end.

Definition agent_eval (limit fuel : nat) (self : QAgent R)
    (eval_reset : list R) (eval_step : nat → Z → step_result R)
    : result (list Z) :=
  agent_eval_loop limit fuel self eval_step eval_reset 0.


End Construction.


(** What no step of training touches: the configuration of the agent. *)
Record same_setup {R : Type} (self self' : QAgent R) : Prop := {
  keep_size : observation_space_size self' = observation_space_size self;
  keep_actions : actions self' = actions self;
  keep_low : observation_space_low self' = observation_space_low self;
  keep_high : observation_space_high self' = observation_space_high self;
  keep_sizes : discrete_sizes self' = discrete_sizes self;
  keep_alpha : alpha self' = alpha self;
  keep_gamma : gamma self' = gamma self;
  keep_decay : epsilon_decay self' = epsilon_decay self;
}.

(** A world in which every episode ends at its first step: the draw is
    always 0, the pick 0, the environment answers with the same terminal
    transition and resets to the same state. *)
Definition one_step_world : world Q :=
  {| w_random := λ _, 0%Q;
     w_randint := λ _, 0;
     w_step := λ _ _, mkStep [3 # 2; 1 # 2]%Q 1%Q true false;
     w_reset := λ _, [1 # 2; 1 # 2]%Q |}.

(** An evaluation environment that ends at its second step. *)
Definition two_step_eval (t : nat) (_ : Z) : step_result Q :=
  mkStep [3 # 2; 1 # 2]%Q (-1)%Q false (1 <=? t)%nat.

(** Rewrite with an equation on a computation, then let the binds run. *)
Ltac run_with H := rewrite H; cbn [mbind result_bind].

(** Split the comparisons of exponents and mantissas that a comparison of
    two binary floats unfolds to. *)
Ltac order_cases :=
  repeat match goal with
  | |- context [Z.compare ?a ?b] =>
      destruct (Z.compare_spec a b); subst
  | H : context [Z.compare ?a ?b] |- _ =>
      destruct (Z.compare_spec a b); subst
  | |- context [Pos.compare_cont Eq ?a ?b] =>
      change (Pos.compare_cont Eq a b) with (Pos.compare a b);
      destruct (Pos.compare_spec a b); subst
  | H : context [Pos.compare_cont Eq ?a ?b] |- _ =>
      change (Pos.compare_cont Eq a b) with (Pos.compare a b) in H;
      destruct (Pos.compare_spec a b); subst
  end; cbn in *; try done; try lia.

(** * Properties *)

(** ** Indexing *)

Lemma py_index_nonneg (n : nat) (i : Z) :
  0 ≤ i < Z.of_nat n → py_index n i = Ok (Z.to_nat i).
Proof. intros Hi. unfold py_index. by rewrite decide_True. Qed.

Lemma py_index_above (n : nat) (i : Z) :
  Z.of_nat n ≤ i → py_index n i = IndexError.
Proof.
  intros Hi. unfold py_index.
  rewrite decide_False by lia. by rewrite decide_False by lia.
Qed.

Lemma getitem_nonneg {A} (l : list A) (i : nat) (a : A) :
  l !! i = Some a → getitem l (Z.of_nat i) = Ok a.
Proof.
  intros Hl. unfold getitem.
  rewrite py_index_nonneg by (apply lookup_lt_Some in Hl; lia).
  cbn. by rewrite Nat2Z.id, Hl.
Qed.

Lemma getitem_above {A} (l : list A) (i : Z) :
  Z.of_nat (length l) ≤ i → getitem l i = IndexError.
Proof. intros Hi. unfold getitem. by rewrite py_index_above. Qed.

Lemma setitem_nonneg {A} (l : list A) (i : nat) (v : A) :
  (i < length l)%nat → setitem l (Z.of_nat i) v = Ok (<[i := v]> l).
Proof.
  intros Hi. unfold setitem. rewrite py_index_nonneg by lia.
  cbn. by rewrite Nat2Z.id.
Qed.

(** ** The boundary scan of one dimension *)

Section Scan.
Variables (st : list Q) (i : Z) (s w : Q).
Hypothesis Hs : getitem st i = Ok s.

Lemma while_loop_unfold (fuel : nat) (x : Z) (l : Q) :
  while_loop (S fuel) st i w x l =
    if negb (Qle_bool s (l + w)%Q)
    then while_loop fuel st i w (x + 1) (l + w)%Q
    else Ok x.
Proof. cbn. rewrite Hs. reflexivity. Qed.

Lemma passes_step (l : Q) (m : nat) :
  (0 <= w)%Q → passes s w l (S m) →
  (l + w < s)%Q ∧ passes s w (l + w)%Q m.
Proof.
  intros Hw [[Hm | Hlt] Hle]; [discriminate |].
  rewrite Nat2Z.inj_succ, <- Z.add_1_r, inject_Z_plus in Hlt, Hle.
  change (inject_Z 1) with 1%Q in Hlt, Hle.
  assert (0 <= inject_Z (Z.of_nat m) * w)%Q as Hmw.
  { apply Qmult_le_0_compat; [| done].
    change 0%Q with (inject_Z 0). rewrite <- Zle_Qle. lia. }
  split; [lra |]. split; [| lra].
  destruct m as [| m]; [by left | right]. lra.
Qed.

Lemma while_loop_passes (m : nat) :
  (0 <= w)%Q →
  ∀ (fuel : nat) (x : Z) (l : Q),
    passes s w l m → (m < fuel)%nat →
    while_loop fuel st i w x l = Ok (x + Z.of_nat m).
Proof.
  intros Hw. induction m as [| m IH]; intros fuel x l Hp Hf.
  - destruct fuel as [| fuel]; [lia |].
    rewrite while_loop_unfold.
    destruct Hp as [_ Hle]. change (inject_Z (Z.of_nat 0)) with 0%Q in Hle.
    assert (s <= l + w)%Q as Hle' by lra.
    apply Qle_bool_iff in Hle'. rewrite Hle'. cbn. f_equal. lia.
  - destruct fuel as [| fuel]; [lia |].
    rewrite while_loop_unfold.
    destruct (passes_step l m Hw Hp) as [Hlt Hp'].
    assert (Qle_bool s (l + w)%Q = false) as ->.
    { apply not_true_is_false. rewrite Qle_bool_iff. lra. }
    cbn. rewrite (IH fuel (x + 1) (l + w)%Q Hp') by lia. f_equal. lia.
Qed.

End Scan.

(** ** Arithmetic of the boundaries *)

Lemma scale_le (w : Q) (j k : Z) :
  (0 <= w)%Q → j ≤ k → (inject_Z j * w <= inject_Z k * w)%Q.
Proof.
  intros Hw Hjk. apply Qmult_le_compat_r; [| done]. by rewrite <- Zle_Qle.
Qed.

Lemma width_spans (lo hi : Q) (n : positive) :
  (lo + inject_Z (Zpos n) * ((hi - lo) / inject_Z (Zpos n)) == hi)%Q.
Proof. field. discriminate. Qed.

Lemma width_pos (lo hi : Q) (n : positive) :
  (lo < hi)%Q → (0 < (hi - lo) / inject_Z (Zpos n))%Q.
Proof.
  intros Hlt. apply Qlt_shift_div_l; [reflexivity | lra].
Qed.

Lemma width_nonneg (lo hi : Q) (n : positive) :
  (lo <= hi)%Q → (0 <= (hi - lo) / inject_Z (Zpos n))%Q.
Proof.
  intros Hle. apply Qle_shift_div_l; [reflexivity | lra].
Qed.

(** With a positive width the scan stops: some boundary is not below [s]. *)
Lemma passes_exists (s w l : Q) : (0 < w)%Q → ∃ m : nat, passes s w l m.
Proof.
  intros Hw.
  pose (q := ((s - l) / w)%Q).
  assert (q * w == s - l)%Q as Hq by (unfold q; field; lra).
  pose proof (Qle_ceiling q) as Hup. pose proof (Qceiling_lt q) as Hdown.
  destruct (Z_le_gt_dec (Qceiling q) 1) as [Hc | Hc].
  - exists 0%nat. split; [by left |].
    change (inject_Z (Z.of_nat 0)) with 0%Q.
    assert (inject_Z (Qceiling q) <= 1)%Q as H1
      by (change 1%Q with (inject_Z 1); by rewrite <- Zle_Qle).
    assert (q * w <= 1 * w)%Q as H2
      by (apply Qmult_le_compat_r; lra).
    lra.
  - exists (Z.to_nat (Qceiling q - 1)). unfold passes.
    rewrite Z2Nat.id by lia. split.
    + right. assert (inject_Z (Qceiling q - 1) * w < q * w)%Q as H2
        by (apply Qmult_lt_compat_r; done).
      lra.
    + assert (q * w <= inject_Z (Qceiling q) * w)%Q as H2
        by (apply Qmult_le_compat_r; lra).
      replace (Qceiling q) with ((Qceiling q - 1) + 1) in H2 at 1 by lia.
      rewrite inject_Z_plus in H2. change (inject_Z 1) with 1%Q in H2. lra.
Qed.

(** No earlier boundary would do: the count is the smallest one. *)
Lemma passes_least (s w l : Q) (m : nat) (j : Z) :
  (0 <= w)%Q → passes s w l m → 0 ≤ j < Z.of_nat m →
  (l + (inject_Z j + 1) * w < s)%Q.
Proof.
  intros Hw [[-> | Hlt] _] Hj; [lia |].
  pose proof (scale_le w (j + 1) (Z.of_nat m) Hw ltac:(lia)) as Hs.
  rewrite inject_Z_plus in Hs. change (inject_Z 1) with 1%Q in Hs. lra.
Qed.

(** The count grows with the value scanned for. *)
Lemma passes_mono (a b w l : Q) (ma mb : nat) :
  (0 <= w)%Q → (a <= b)%Q → passes a w l ma → passes b w l mb →
  (ma ≤ mb)%nat.
Proof.
  intros Hw Hab [[-> | Hlt] _] [_ Hle]; [lia |].
  destruct (le_gt_dec ma mb) as [| Hgt]; [done | exfalso].
  pose proof (scale_le w (Z.of_nat mb + 1) (Z.of_nat ma) Hw ltac:(lia)) as Hs.
  rewrite inject_Z_plus in Hs. change (inject_Z 1) with 1%Q in Hs. lra.
Qed.

(** A value inside [[lo, hi]] stops the scan before the last boundary. *)
Lemma passes_in_range (s lo hi : Q) (n : positive) (m : nat) :
  (lo <= s)%Q → (s <= hi)%Q →
  passes s ((hi - lo) / inject_Z (Zpos n)) lo m → Z.of_nat m < Zpos n.
Proof.
  intros Hlo Hhi [[-> | Hlt] _]; [lia |].
  destruct (Z_lt_ge_dec (Z.of_nat m) (Zpos n)) as [| Hge]; [done | exfalso].
  pose proof (width_spans lo hi n) as Hsp.
  pose proof (scale_le _ (Zpos n) (Z.of_nat m)
                (width_nonneg lo hi n ltac:(lra)) ltac:(lia)) as Hs.
  lra.
Qed.

(** A value above [hi] passes every boundary of the range. *)
Lemma passes_above (s lo hi : Q) (n : positive) (m : nat) :
  (lo <= hi)%Q → (hi < s)%Q →
  passes s ((hi - lo) / inject_Z (Zpos n)) lo m → Zpos n ≤ Z.of_nat m.
Proof.
  intros Hlo Hhi [_ Hle].
  destruct (Z_le_gt_dec (Zpos n) (Z.of_nat m)) as [| Hgt]; [done | exfalso].
  pose proof (width_spans lo hi n) as Hsp.
  pose proof (scale_le _ (Z.of_nat m + 1) (Zpos n)
                (width_nonneg lo hi n Hlo) ltac:(lia)) as Hs.
  rewrite inject_Z_plus in Hs. change (inject_Z 1) with 1%Q in Hs. lra.
Qed.

(** A value not above the first boundary, in particular one below [lo],
    passes none. *)
Lemma passes_none (s w l : Q) : (s <= l + w)%Q → passes s w l 0.
Proof.
  intros Hle. split; [by left |].
  change (inject_Z (Z.of_nat 0)) with 0%Q. lra.
Qed.

(** ** Facts that hold in every arithmetic *)

Section AnyNumber.
Context {R : Type} `{Number R}.

Lemma bind_Ok {A B} (m : result A) (f : A → result B) (b : B) :
  m ≫= f = Ok b → ∃ a, m = Ok a ∧ f a = Ok b.
Proof. destruct m as [a | |]; cbn; [eauto | done | done]. Qed.

(** The counter only goes up. *)
Lemma while_loop_lower (fuel : nat) (st : list R) (i : Z) (w : R) :
  ∀ (x : Z) (l : R) (k : Z),
    while_loop fuel st i w x l = Ok k → x ≤ k.
Proof.
  induction fuel as [| fuel IH]; intros x l k Hk; [done |].
  cbn in Hk. apply bind_Ok in Hk as (s & _ & Hk).
  destruct (num_gt s (num_add l w)).
  - apply IH in Hk. lia.
  - injection Hk as ->. lia.
Qed.

(** More fuel does not change an answer already given. *)
Lemma while_loop_more_fuel (fuel fuel' : nat) (st : list R) (i : Z) (w : R) :
  (fuel ≤ fuel')%nat →
  ∀ (x : Z) (l : R) (k : Z),
    while_loop fuel st i w x l = Ok k → while_loop fuel' st i w x l = Ok k.
Proof.
  revert fuel'. induction fuel as [| fuel IH]; intros fuel' Hf x l k Hk;
    [done |].
  destruct fuel' as [| fuel']; [lia |].
  cbn in Hk |- *. destruct (getitem st i) as [s | |]; cbn in *; try done.
  destruct (num_gt s (num_add l w)); [| done].
  apply IH; [lia | done].
Qed.

Lemma dimension_more_fuel (fuel fuel' : nat) (self : QAgent R)
    (st : list R) (i k : Z) :
  (fuel ≤ fuel')%nat →
  dimension fuel self st i = Ok k → dimension fuel' self st i = Ok k.
Proof.
  intros Hf. unfold dimension.
  destruct (getitem (observation_space_low self) i); cbn; try done.
  destruct (getitem (observation_space_high self) i); cbn; try done.
  destruct (getitem (discrete_sizes self) i); cbn; try done.
  by apply while_loop_more_fuel.
Qed.

Lemma dimension_lower (fuel : nat) (self : QAgent R) (st : list R)
    (i k : Z) :
  dimension fuel self st i = Ok k → 0 ≤ k.
Proof.
  unfold dimension.
  destruct (getitem (observation_space_low self) i); cbn; try done.
  destruct (getitem (observation_space_high self) i); cbn; try done.
  destruct (getitem (discrete_sizes self) i); cbn; try done.
  apply while_loop_lower.
Qed.

Lemma setitem_Ok {A} (l l' : list A) (i : Z) (v : A) :
  setitem l i v = Ok l' →
  ∃ k : nat, py_index (length l) i = Ok k ∧ l' = <[k := v]> l.
Proof.
  unfold setitem. intros (k & Hk & Hl)%bind_Ok. exists k.
  by injection Hl as <-.
Qed.

Lemma py_index_Ok_nat (n i k : nat) :
  py_index n (Z.of_nat i) = Ok k → k = i ∧ (i < n)%nat.
Proof.
  unfold py_index. case_decide; [| case_decide; [lia | done]].
  intros [= <-]. lia.
Qed.

(** What the [for] loop has written when it ends: the answer of
    [dimension] at every position of its range, nothing elsewhere. *)
Lemma for_loop_Ok (fuel : nat) (self : QAgent R) (st : list R) (n : nat) :
  ∀ (a : nat) (indices cell : list Z),
    for_loop fuel self st (seq a n) indices = Ok cell →
    length cell = length indices
    ∧ (∀ j : nat, (a ≤ j < a + n)%nat →
         ∃ k, dimension fuel self st (Z.of_nat j) = Ok k
              ∧ cell !! j = Some k)
    ∧ (∀ j : nat, (j < a)%nat → cell !! j = indices !! j).
Proof.
  induction n as [| n IH]; intros a indices cell Hc.
  - injection Hc as <-. split; [done |]. split; [intros j ?; lia | done].
  - cbn in Hc.
    apply bind_Ok in Hc as (x & Hx & Hc).
    apply bind_Ok in Hc as (indices' & Hset & Hc).
    apply setitem_Ok in Hset as (k & Hk & ->).
    apply py_index_Ok_nat in Hk as [-> Ha].
    apply IH in Hc as (Hlen & Hin & Hout).
    rewrite length_insert in Hlen. split; [done |]. split.
    + intros j Hj. destruct (decide (j = a)) as [-> | Hne].
      * exists x. split; [done |].
        rewrite Hout by lia. by apply list_lookup_insert_eq.
      * apply Hin. lia.
    + intros j Hj. rewrite Hout by lia.
      apply list_lookup_insert_ne. lia.
Qed.

(** The loop succeeds as soon as [dimension] does at each position. *)
Lemma for_loop_total (fuel : nat) (self : QAgent R) (st : list R) (n : nat) :
  ∀ (a : nat) (indices : list Z),
    (a + n ≤ length indices)%nat →
    (∀ j : nat, (a ≤ j < a + n)%nat →
       ∃ k, dimension fuel self st (Z.of_nat j) = Ok k) →
    ∃ cell, for_loop fuel self st (seq a n) indices = Ok cell.
Proof.
  induction n as [| n IH]; intros a indices Hlen Hdim; [by eexists |].
  cbn. destruct (Hdim a ltac:(lia)) as [k ->]. cbn.
  rewrite setitem_nonneg by lia. cbn.
  apply IH; [rewrite length_insert; lia |].
  intros j Hj. apply Hdim. lia.
Qed.

Lemma get_state_index_Ok (fuel : nat) (self : QAgent R) (st : list R)
    (cell : list Z) :
  get_state_index fuel self st = Ok cell →
  length cell = observation_space_size self
  ∧ ∀ j : nat, (j < observation_space_size self)%nat →
      ∃ k, dimension fuel self st (Z.of_nat j) = Ok k ∧ cell !! j = Some k.
Proof.
  unfold get_state_index. rewrite length_replicate.
  intros (Hlen & Hin & _)%for_loop_Ok.
  rewrite length_replicate in Hlen. split; [done |].
  intros j Hj. apply Hin. lia.
Qed.

Lemma get_state_index_total (fuel : nat) (self : QAgent R) (st : list R) :
  (∀ j : nat, (j < observation_space_size self)%nat →
     ∃ k, dimension fuel self st (Z.of_nat j) = Ok k) →
  ∃ cell, get_state_index fuel self st = Ok cell.
Proof.
  intros Hdim. unfold get_state_index. rewrite length_replicate.
  apply for_loop_total; [by rewrite length_replicate |].
  intros j Hj. apply Hdim. lia.
Qed.

Lemma get_state_index_more_fuel (fuel fuel' : nat) (self : QAgent R)
    (st : list R) (cell : list Z) :
  (fuel ≤ fuel')%nat →
  get_state_index fuel self st = Ok cell →
  get_state_index fuel' self st = Ok cell.
Proof.
  intros Hf Hc.
  destruct (get_state_index_Ok _ _ _ _ Hc) as [Hlen Hin].
  destruct (get_state_index_total fuel' self st) as [cell' Hc'].
  { intros j Hj. destruct (Hin j Hj) as (k & Hk & _).
    exists k. by apply (dimension_more_fuel fuel). }
  rewrite Hc'. f_equal.
  destruct (get_state_index_Ok _ _ _ _ Hc') as [Hlen' Hin'].
  apply list_eq. intros j.
  destruct (decide (j < observation_space_size self)%nat) as [Hj | Hj].
  - destruct (Hin j Hj) as (k & Hk & ->).
    destruct (Hin' j Hj) as (k' & Hk' & ->).
    apply (dimension_more_fuel fuel fuel') in Hk; [| done]. congruence.
  - rewrite !lookup_ge_None_2 by lia. done.
Qed.

End AnyNumber.

(** ** The scan, boundary by boundary, in every arithmetic *)

Section ScanAny.
Context {R : Type} `{Number R}.
Local Open Scope num_scope.
Variables (st : list R) (i : Z) (s w : R).
Hypothesis Hs : getitem st i = Ok s.

Lemma boundary_shift (l : R) (k : nat) :
  boundary (l + w) w k = boundary l w (S k).
Proof. exact (eq_sym (Nat.iter_succ_r k R (λ b, b + w) l)). Qed.

Lemma while_loop_step (fuel : nat) (x : Z) (l : R) :
  while_loop (S fuel) st i w x l =
    if s >? l + w then while_loop fuel st i w (x + 1) (l + w) else Ok x.
Proof. cbn. rewrite Hs. reflexivity. Qed.

Lemma stops_at_shift (l : R) (k : nat) :
  (s >? l + w) = true → stops_at s (l + w) w k → stops_at s l w (S k).
Proof.
  intros Hgt [Hup Hdown]. split.
  - intros [| j] Hj; [done |]. rewrite <- boundary_shift. apply Hup. lia.
  - by rewrite <- boundary_shift.
Qed.

Lemma stops_at_unshift (l : R) (k : nat) :
  stops_at s l w (S k) → (s >? l + w) = true ∧ stops_at s (l + w) w k.
Proof.
  intros [Hup Hdown]. split; [apply (Hup 0%nat); lia |]. split.
  - intros j Hj. rewrite boundary_shift. apply Hup. lia.
  - by rewrite boundary_shift.
Qed.

(** The loop counts the boundaries below [s] up to the first that is
    not. *)
Lemma while_loop_scan (k : nat) :
  ∀ (fuel : nat) (x : Z) (l : R),
    (k < fuel)%nat → stops_at s l w k →
    while_loop fuel st i w x l = Ok (x + Z.of_nat k)%Z.
Proof.
  induction k as [| k IH]; intros fuel x l Hf Hk;
    (destruct fuel as [| fuel]; [lia |]); rewrite while_loop_step.
  - destruct Hk as [_ Hdown]. cbn in Hdown. rewrite Hdown. f_equal. lia.
  - apply stops_at_unshift in Hk as [Hgt Hk]. rewrite Hgt.
    rewrite (IH fuel (x + 1)%Z (l + w)) by (done || lia). f_equal. lia.
Qed.

(** While every boundary tried is below [s] the loop goes on. *)
Lemma while_loop_cut (fuel : nat) :
  ∀ (x : Z) (l : R),
    (∀ j : nat, (j < fuel)%nat → (s >? boundary l w (S j)) = true) →
    while_loop fuel st i w x l = OutOfFuel.
Proof.
  induction fuel as [| fuel IH]; intros x l Hup; [done |].
  rewrite while_loop_step. rewrite (Hup 0%nat ltac:(lia) : (s >? l + w) = true).
  apply IH. intros j Hj. rewrite boundary_shift. apply Hup. lia.
Qed.

Lemma while_loop_Ok_scan (fuel : nat) :
  ∀ (x : Z) (l : R) (r : Z),
    while_loop fuel st i w x l = Ok r →
    ∃ k : nat, r = (x + Z.of_nat k)%Z ∧ (k < fuel)%nat ∧ stops_at s l w k.
Proof.
  induction fuel as [| fuel IH]; intros x l r Hr; [done |].
  rewrite while_loop_step in Hr.
  destruct (s >? l + w) eqn:Hgt.
  - apply IH in Hr as (k & -> & Hk & Hstop). exists (S k).
    split; [lia |]. split; [lia |]. by apply stops_at_shift.
  - injection Hr as <-. exists 0%nat. split; [lia |]. split; [lia |].
    split; [intros j Hj; lia | done].
Qed.

(** If some boundary is not below [s], there is a first one. *)
Lemma first_not_above (m : nat) :
  ∀ l : R, (s >? boundary l w (S m)) = false →
    ∃ k : nat, (k ≤ m)%nat ∧ stops_at s l w k.
Proof.
  induction m as [| m IH]; intros l Hm.
  - exists 0%nat. split; [done |]. split; [intros j Hj; lia | done].
  - destruct (s >? l + w) eqn:Hgt.
    + rewrite <- boundary_shift in Hm. apply IH in Hm as (k & Hk & Hstop).
      exists (S k). split; [lia |]. by apply stops_at_shift.
    + exists 0%nat. split; [lia |]. split; [intros j Hj; lia | done].
Qed.

(** Where adding the width leaves the edge as it was, with [s] above it,
    the loop has no end. *)
Lemma while_loop_absorbed (l : R) :
  (s >? l + w) = true → l + w = l →
  ∀ (fuel : nat) (x : Z), while_loop fuel st i w x l = OutOfFuel.
Proof.
  intros Hgt Habs fuel. induction fuel as [| fuel IH]; intros x; [done |].
  rewrite while_loop_step, Hgt, Habs. apply IH.
Qed.

End ScanAny.

Section DimensionAny.
Context {R : Type} `{Number R}.
Local Open Scope num_scope.

Lemma stops_at_unique (s lo w : R) (k k' : nat) :
  stops_at s lo w k → stops_at s lo w k' → k = k'.
Proof.
  intros [Hup Hdown] [Hup' Hdown'].
  destruct (Nat.lt_trichotomy k k') as [Hlt | [-> | Hlt]]; [| done |].
  - rewrite (Hup' k Hlt) in Hdown. done.
  - rewrite (Hup k' Hlt) in Hdown'. done.
Qed.

Lemma dimension_scan (fuel : nat) (self : QAgent R) (st : list R) (i : nat)
    (s lo w : R) :
  scan_at self st i s lo w →
  getitem st (Z.of_nat i) = Ok s
  ∧ dimension fuel self st (Z.of_nat i)
    = while_loop fuel st (Z.of_nat i) w 0 lo.
Proof.
  intros [Hs Hlo (hi & n & Hhi & Hn & ->)].
  split; [by apply getitem_nonneg |].
  unfold dimension.
  rewrite (getitem_nonneg _ _ _ Hlo). cbn [mbind result_bind].
  rewrite (getitem_nonneg _ _ _ Hhi). cbn [mbind result_bind].
  rewrite (getitem_nonneg _ _ _ Hn). cbn [mbind result_bind]. done.
Qed.

Lemma dimension_stops_at (fuel : nat) (self : QAgent R) (st : list R)
    (i : nat) (s lo w : R) (k : nat) :
  scan_at self st i s lo w → (k < fuel)%nat → stops_at s lo w k →
  dimension fuel self st (Z.of_nat i) = Ok (Z.of_nat k).
Proof.
  intros Hscan Hf Hk.
  destruct (dimension_scan fuel _ _ _ _ _ _ Hscan) as [Hs ->].
  by rewrite (while_loop_scan st _ s w Hs k fuel 0 lo Hf Hk).
Qed.

Lemma dimension_Ok_stops_at (fuel : nat) (self : QAgent R) (st : list R)
    (i : nat) (s lo w : R) (r : Z) :
  scan_at self st i s lo w →
  dimension fuel self st (Z.of_nat i) = Ok r →
  ∃ k : nat, r = Z.of_nat k ∧ (k < fuel)%nat ∧ stops_at s lo w k.
Proof.
  intros Hscan. destruct (dimension_scan fuel _ _ _ _ _ _ Hscan) as [Hs ->].
  intros (k & -> & Hk)%(while_loop_Ok_scan st _ s w Hs). by exists k.
Qed.

(** The scan stops at the latest where a boundary is not below the
    component, with the same index however much fuel is left. *)
Lemma dimension_stops (self : QAgent R) (st : list R) (i : nat)
    (s lo w : R) (m : nat) :
  scan_at self st i s lo w → (s >? boundary lo w (S m)) = false →
  ∃ k : nat, (k ≤ m)%nat ∧ stops_at s lo w k
    ∧ ∀ fuel : nat, (k < fuel)%nat →
        dimension fuel self st (Z.of_nat i) = Ok (Z.of_nat k).
Proof.
  intros Hscan Hm.
  destruct (first_not_above s w m lo Hm) as (k & Hk & Hstop).
  exists k. split; [done |]. split; [done |]. intros fuel Hf.
  by apply (dimension_stops_at fuel self st i s lo w).
Qed.

Lemma dimension_absorbed (self : QAgent R) (st : list R) (i : nat)
    (s lo w : R) :
  scan_at self st i s lo w → (s >? lo + w) = true → lo + w = lo →
  ∀ fuel : nat, dimension fuel self st (Z.of_nat i) = OutOfFuel.
Proof.
  intros Hscan Hgt Habs fuel.
  destruct (dimension_scan fuel _ _ _ _ _ _ Hscan) as [Hs ->].
  by apply (while_loop_absorbed st _ s w Hs).
Qed.

(** Where the scan puts a component of the cell. *)
Lemma cell_stops_at (fuel : nat) (self : QAgent R) (st : list R)
    (cell : list Z) (i : nat) (s lo w : R) :
  get_state_index fuel self st = Ok cell →
  scan_at self st i s lo w → (i < observation_space_size self)%nat →
  ∃ k : nat, cell !! i = Some (Z.of_nat k) ∧ (k < fuel)%nat
             ∧ stops_at s lo w k.
Proof.
  intros [_ Hin]%get_state_index_Ok Hscan Hi.
  destruct (Hin i Hi) as (r & Hd & Hr).
  apply (dimension_Ok_stops_at fuel self st i s lo w) in Hd
    as (k & -> & Hk & Hstop); [| done].
  by exists k.
Qed.

Lemma cell_first (fuel : nat) (self : QAgent R) (st : list R)
    (cell : list Z) (i : nat) (s lo w : R) :
  get_state_index fuel self st = Ok cell →
  scan_at self st i s lo w → (i < observation_space_size self)%nat →
  (s >? lo + w) = false → cell !! i = Some 0%Z.
Proof.
  intros Hc Hscan Hi Hle.
  destruct (cell_stops_at fuel self st cell i s lo w Hc Hscan Hi)
    as (k & Hk & _ & Hstop).
  assert (stops_at s lo w 0) as H0 by (split; [intros j Hj; lia | done]).
  by rewrite (stops_at_unique s lo w k 0 Hstop H0) in Hk.
Qed.

Lemma cell_beyond (fuel : nat) (self : QAgent R) (st : list R)
    (cell : list Z) (i : nat) (s lo w : R) (n : nat) :
  get_state_index fuel self st = Ok cell →
  scan_at self st i s lo w → (i < observation_space_size self)%nat →
  (∀ j : nat, (j < n)%nat → (s >? boundary lo w (S j)) = true) →
  ∃ k : Z, cell !! i = Some k ∧ (Z.of_nat n ≤ k)%Z.
Proof.
  intros Hc Hscan Hi Hup.
  destruct (cell_stops_at fuel self st cell i s lo w Hc Hscan Hi)
    as (k & Hk & _ & _ & Hdown).
  exists (Z.of_nat k). split; [done |].
  destruct (le_gt_dec n k) as [| Hlt]; [lia |].
  rewrite (Hup k Hlt) in Hdown. done.
Qed.

(** A two-component cell from the two scans. *)
Lemma get_state_index_two (fuel : nat) (self : QAgent R) (st : list R)
    (c0 c1 : Z) :
  observation_space_size self = 2%nat →
  dimension fuel self st 0 = Ok c0 → dimension fuel self st 1 = Ok c1 →
  get_state_index fuel self st = Ok [c0; c1].
Proof.
  intros HD H0 H1. unfold get_state_index. rewrite HD.
  cbn [replicate length seq for_loop].
  change (Z.of_nat 0) with 0. change (Z.of_nat 1) with 1.
  rewrite H0. cbn [mbind result_bind]. rewrite H1. reflexivity.
Qed.

Lemma more_fuel_from (base extra : nat) (self : QAgent R) (st : list R)
    (cell : list Z) :
  get_state_index base self st = Ok cell →
  get_state_index (base + extra) self st = Ok cell.
Proof. apply get_state_index_more_fuel. lia. Qed.

End DimensionAny.

(** ** The discretiser over [Q] *)

Lemma dim_at_exists (self : QAgent Q) (st : list Q) (i : nat) :
  dims_ok self → length st = observation_space_size self →
  (i < observation_space_size self)%nat →
  ∃ lo hi n s, dim_at self st i lo hi n s.
Proof.
  intros (Hl & Hh & Hn) Hst Hi.
  destruct (lookup_lt_is_Some_2 (observation_space_low self) i) as [lo ?];
    [lia |].
  destruct (lookup_lt_is_Some_2 (observation_space_high self) i) as [hi ?];
    [lia |].
  destruct (lookup_lt_is_Some_2 (discrete_sizes self) i) as [n ?]; [lia |].
  destruct (lookup_lt_is_Some_2 st i) as [s ?]; [lia |].
  by exists lo, hi, n, s.
Qed.

Lemma dimension_exact (fuel : nat) (self : QAgent Q) (st : list Q) (i : nat)
    (lo hi : Q) (n : positive) (s : Q) (m : nat) :
  dim_at self st i lo hi n s → (0 <= width lo hi n)%Q →
  passes s (width lo hi n) lo m → (m < fuel)%nat →
  dimension fuel self st (Z.of_nat i) = Ok (Z.of_nat m).
Proof.
  intros [Hlo Hhi Hn Hs] Hw Hp Hf. unfold dimension.
  rewrite (getitem_nonneg _ _ _ Hlo), (getitem_nonneg _ _ _ Hhi),
    (getitem_nonneg _ _ _ Hn). cbn.
  by apply (while_loop_passes st (Z.of_nat i) s (width lo hi n)
              (getitem_nonneg _ _ _ Hs) m Hw fuel 0 lo).
Qed.

(** Whatever fuel it was given, an answer of [dimension] is the count of
    boundaries passed. *)
Lemma dimension_inv (fuel : nat) (self : QAgent Q) (st : list Q) (i : nat)
    (lo hi : Q) (n : positive) (s : Q) (m : nat) (k : Z) :
  dim_at self st i lo hi n s → (0 <= width lo hi n)%Q →
  passes s (width lo hi n) lo m →
  dimension fuel self st (Z.of_nat i) = Ok k → k = Z.of_nat m.
Proof.
  intros Hd Hw Hp Hk.
  apply (dimension_more_fuel fuel (fuel `max` S m)) in Hk; [| lia].
  rewrite (dimension_exact _ self st i lo hi n s m Hd Hw Hp) in Hk by lia.
  by injection Hk.
Qed.

Lemma cell_entry (fuel : nat) (self : QAgent Q) (st : list Q) (cell : list Z)
    (i : nat) (lo hi : Q) (n : positive) (s : Q) (m : nat) :
  get_state_index fuel self st = Ok cell →
  dim_at self st i lo hi n s → (0 <= width lo hi n)%Q →
  passes s (width lo hi n) lo m →
  (i < observation_space_size self)%nat →
  cell !! i = Some (Z.of_nat m).
Proof.
  intros Hc Hd Hw Hp Hi.
  destruct (get_state_index_Ok _ _ _ _ Hc) as [_ Hin].
  destruct (Hin i Hi) as (k & Hk & ->).
  by rewrite (dimension_inv _ _ _ _ _ _ _ _ _ _ Hd Hw Hp Hk).
Qed.

Lemma common_bound (P : nat → nat → Prop) (D : nat) :
  (∀ j m m', P j m → (m ≤ m')%nat → P j m') →
  (∀ j, (j < D)%nat → ∃ m, P j m) →
  ∃ m, ∀ j, (j < D)%nat → P j m.
Proof.
  intros Hup. induction D as [| D IH]; intros HP.
  - exists 0%nat. intros j ?; lia.
  - destruct IH as [m1 H1]; [intros j ?; apply HP; lia |].
    destruct (HP D ltac:(lia)) as [m2 H2].
    exists (m1 `max` m2)%nat. intros j Hj.
    destruct (decide (j = D)) as [-> | Hne].
    + apply (Hup _ m2); [done | lia].
    + apply (Hup _ m1); [apply H1; lia | lia].
Qed.

(** The discretiser returns, and returns the same cell for any larger
    fuel, as soon as the scan of every dimension stops. *)
Lemma get_state_index_returns (self : QAgent Q) (st : list Q) :
  dims_ok self → length st = observation_space_size self →
  (∀ i lo hi n s, dim_at self st i lo hi n s →
     (0 <= width lo hi n)%Q ∧ ∃ m, passes s (width lo hi n) lo m) →
  ∃ fuel cell, ∀ fuel', (fuel ≤ fuel')%nat →
    get_state_index fuel' self st = Ok cell.
Proof.
  intros Hok Hst Hstop.
  destruct (common_bound
    (λ j fuel, ∃ k, dimension fuel self st (Z.of_nat j) = Ok k)
    (observation_space_size self)) as [fuel Hfuel].
  - intros j m m' [k Hk] Hm. exists k. by apply (dimension_more_fuel m).
  - intros j Hj.
    destruct (dim_at_exists self st j Hok Hst Hj) as (lo & hi & n & s & Hd).
    destruct (Hstop _ _ _ _ _ Hd) as [Hw [m Hp]].
    exists (S m), (Z.of_nat m).
    apply (dimension_exact _ _ _ _ _ _ _ _ _ Hd Hw Hp). lia.
  - destruct (get_state_index_total fuel self st Hfuel) as [cell Hc].
    exists fuel, cell. intros fuel' Hf.
    by apply (get_state_index_more_fuel fuel).
Qed.

Lemma in_range_passes (s lo hi : Q) (n : positive) :
  (lo <= s)%Q → (s <= hi)%Q →
  (0 <= width lo hi n)%Q ∧ ∃ m, passes s (width lo hi n) lo m.
Proof.
  intros Hlo Hhi.
  pose proof (width_nonneg lo hi n ltac:(lra)) as Hw. split; [done |].
  destruct (Qlt_le_dec lo hi) as [Hlt | Hle].
  - apply passes_exists. by apply width_pos.
  - exists 0%nat. apply passes_none. fold (width lo hi n) in Hw. lra.
Qed.

(** An observation within the bounds is given a cell, and each index of the
    cell is the count of boundaries passed, below the bucket count. *)
Lemma in_range_cell (self : QAgent Q) (st : list Q) :
  dims_ok self → in_range self st →
  ∃ (fuel : nat) (cell : list Z),
    (∀ fuel', (fuel ≤ fuel')%nat → get_state_index fuel' self st = Ok cell)
    ∧ length cell = observation_space_size self
    ∧ ∀ i lo hi n s, dim_at self st i lo hi n s →
        ∃ m : nat, cell !! i = Some (Z.of_nat m)
          ∧ (0 <= width lo hi n)%Q
          ∧ passes s (width lo hi n) lo m
          ∧ Z.of_nat m < Zpos n.
Proof.
  intros Hok [Hlen Hin].
  destruct (get_state_index_returns self st Hok Hlen) as (fuel & cell & Hc).
  { intros i lo hi n s [Hlo Hhi _ Hs].
    destruct (Hin i lo hi s Hlo Hhi Hs). by apply in_range_passes. }
  exists fuel, cell. split; [done |].
  specialize (Hc fuel (le_n _)).
  split; [by apply get_state_index_Ok in Hc as [? _] |].
  intros i lo hi n s Hd.
  destruct (Hin i lo hi s (dim_low _ _ _ _ _ _ _ Hd)
              (dim_high _ _ _ _ _ _ _ Hd) (dim_obs _ _ _ _ _ _ _ Hd))
    as [Hge Hle].
  destruct (in_range_passes s lo hi n Hge Hle) as [Hw [m Hp]].
  assert (i < observation_space_size self)%nat as Hi.
  { rewrite <- Hlen. apply lookup_lt_is_Some.
    rewrite (dim_obs _ _ _ _ _ _ _ Hd). by eexists. }
  exists m. split; [by apply (cell_entry fuel self st _ _ lo hi n s) |].
  split; [done |]. split; [done |]. by apply (passes_in_range s lo hi).
Qed.

(** In exact arithmetic, where the 25th boundary is [high[i]] itself: for
    an observation within its bounds the discretiser returns, in every
    dimension, the smallest [k] with
    [observation[i] <= low[i] + (k+1) * w[i]]; that [k] is a valid index,
    [0 <= k < bucket_count[i]]; a value exactly on an interior boundary gets
    the bucket below it; and with one bucket over [0, 2] both [0] and [2]
    fall in cell [0].  What rounding makes of this at the upper bounds is
    shown with the discretiser in floating point, below. *)
Lemma get_state_index_in_range :
  (∀ (self : QAgent Q) (st : list Q),
     dims_ok self → in_range self st →
     ∃ (fuel : nat) (cell : list Z),
       (∀ fuel', (fuel ≤ fuel')%nat → get_state_index fuel' self st = Ok cell)
       ∧ length cell = observation_space_size self
       ∧ ∀ i lo hi n s, dim_at self st i lo hi n s →
           ∃ k : Z, cell !! i = Some k
             ∧ 0 ≤ k < Zpos n
             ∧ (s <= lo + (inject_Z k + 1) * width lo hi n)%Q
             ∧ (∀ j : Z, 0 ≤ j < k →
                  ¬ (s <= lo + (inject_Z j + 1) * width lo hi n)%Q)
             ∧ (∀ j : Z, 0 ≤ j →
                  (s == lo + (inject_Z j + 1) * width lo hi n)%Q →
                  (lo < hi)%Q → k = j))
  ∧ (∀ (self : QAgent Q) (fuel : nat),
       observation_space_size self = 1%nat →
       observation_space_low self = [0]%Q →
       observation_space_high self = [2]%Q →
       discrete_sizes self = [1]%positive →
       get_state_index (S fuel) self [0]%Q = Ok [0]
       ∧ get_state_index (S fuel) self [2]%Q = Ok [0]).
Proof.
  split.
  - intros self st Hok Hin.
    destruct (in_range_cell self st Hok Hin) as (fuel & cell & Hc & Hlen & Hk).
    exists fuel, cell. split; [done |]. split; [done |].
    intros i lo hi n s Hd.
    destruct (Hk i lo hi n s Hd) as (m & Hm & Hw & Hp & Hmn).
    exists (Z.of_nat m). split; [done |]. split; [lia |].
    split; [apply Hp |]. split.
    + intros j Hj Hcontra.
      pose proof (passes_least _ _ _ _ j Hw Hp Hj). lra.
    + intros j Hj Heq Hlt.
      pose proof (width_pos lo hi n Hlt) as Hpos. fold (width lo hi n) in Hpos.
      destruct (Z.lt_trichotomy (Z.of_nat m) j) as [Hmj | [Hmj | Hmj]];
        [exfalso | done | exfalso].
      * destruct Hp as [_ Hup].
        pose proof (scale_le (width lo hi n) (Z.of_nat m + 1) j Hw ltac:(lia))
          as Hsc.
        rewrite inject_Z_plus in Hsc. change (inject_Z 1) with 1%Q in Hsc. lra.
      * pose proof (passes_least _ _ _ _ j Hw Hp ltac:(lia)). lra.
  - intros self fuel HD Hlo Hhi Hn.
    unfold get_state_index. rewrite HD. cbn [replicate length seq for_loop].
    unfold dimension. rewrite Hlo, Hhi, Hn.
    split; reflexivity.
Qed.

Lemma get_state_index_in_range_witness :
  ∃ (fuel : nat) (cell : list Z),
    (∀ fuel', (fuel ≤ fuel')%nat →
       get_state_index fuel' mountain_car [3 # 5; -7 # 100]%Q = Ok cell)
    ∧ length cell = observation_space_size mountain_car
    ∧ ∀ i lo hi n s,
        dim_at mountain_car [3 # 5; -7 # 100]%Q i lo hi n s →
        ∃ k : Z, cell !! i = Some k
          ∧ 0 ≤ k < Zpos n
          ∧ (s <= lo + (inject_Z k + 1) * width lo hi n)%Q
          ∧ (∀ j : Z, 0 ≤ j < k →
               ¬ (s <= lo + (inject_Z j + 1) * width lo hi n)%Q)
          ∧ (∀ j : Z, 0 ≤ j →
               (s == lo + (inject_Z j + 1) * width lo hi n)%Q →
               (lo < hi)%Q → k = j).
Proof.
  apply (proj1 get_state_index_in_range mountain_car [3 # 5; -7 # 100]%Q).
  - repeat split.
  - split; [reflexivity |].
    intros [| [| i]] lo hi s; cbn; intros [= <-] [= <-] [= <-];
      split; discriminate.
Defined.

Lemma getitem_not_OutOfFuel {A} (l : list A) (i : Z) :
  getitem l i ≠ OutOfFuel.
Proof.
  unfold getitem, py_index.
  repeat case_decide; cbn; try done; by destruct (l !! _).
Qed.

Lemma getitem_Ok_elem {A} (l : list A) (i : Z) (a : A) :
  getitem l i = Ok a → a ∈ l.
Proof.
  unfold getitem. intros (k & _ & Hk)%bind_Ok.
  destruct (l !! k) as [a' |] eqn:Hl; [| done].
  injection Hk as <-. by apply list_elem_of_lookup_2 in Hl.
Qed.

(** Reading the table at a cell beyond its shape raises. *)
Lemma q_get_above {R : Type} (self : QAgent R) (n0 n1 : positive)
    (c0 c1 a : Z) :
  length (q_table self) = Pos.to_nat n0 →
  (∀ plane, plane ∈ q_table self → length plane = Pos.to_nat n1) →
  Zpos n0 ≤ c0 ∨ Zpos n1 ≤ c1 →
  q_get self c0 c1 a = IndexError.
Proof.
  intros H0 H1 Hc. unfold q_get.
  destruct (getitem (q_table self) c0) as [plane | |] eqn:Hp; cbn;
    [| done | by apply getitem_not_OutOfFuel in Hp].
  destruct Hc as [Hc | Hc].
  - rewrite getitem_above in Hp by lia. done.
  - apply getitem_Ok_elem, H1 in Hp.
    rewrite getitem_above by lia. done.
Qed.

Lemma cell_two (cell : list Z) :
  length cell = 2%nat → ∃ c0 c1, cell = [c0; c1].
Proof. destruct cell as [| c0 [| c1 [| ? ?]]]; try done. by eexists _, _. Qed.

Lemma getitem_0 {A} (a : A) (l : list A) : getitem (a :: l) 0 = Ok a.
Proof. apply (getitem_nonneg (a :: l) 0). reflexivity. Qed.

Lemma getitem_1 {A} (a b : A) (l : list A) : getitem (a :: b :: l) 1 = Ok b.
Proof. apply (getitem_nonneg (a :: b :: l) 1). reflexivity. Qed.

(** In exact arithmetic: when every dimension has positive width the
    discretiser returns; a component above [high[i]] gets an index
    [>= bucket_count[i]], and reading or updating the table at that cell
    raises [IndexError]; a component below [low[i]] gets index [0].  In
    floating point the last boundary need not be [high[i]]; see the
    discretiser in floating point, below. *)
Lemma get_state_index_out_of_range (self : QAgent Q) (st : list Q) :
  dims_ok self → length st = observation_space_size self →
  (∀ i lo hi, observation_space_low self !! i = Some lo →
     observation_space_high self !! i = Some hi → (lo < hi)%Q) →
  ∃ (fuel : nat) (cell : list Z),
    (∀ fuel', (fuel ≤ fuel')%nat → get_state_index fuel' self st = Ok cell)
    ∧ (∀ i lo hi n s, dim_at self st i lo hi n s →
         ((hi < s)%Q → ∃ k : Z, cell !! i = Some k ∧ Zpos n ≤ k)
         ∧ ((s < lo)%Q → cell !! i = Some 0))
    ∧ (table_shape self →
       (∃ i lo hi n s, dim_at self st i lo hi n s ∧ (hi < s)%Q) →
       ∀ fuel', (fuel ≤ fuel')%nat →
         greedy_action fuel' self st = IndexError
         ∧ ∀ action reward next_state,
             update fuel' self st action reward next_state true = IndexError).
Proof.
  intros Hok Hlen Hpos.
  assert (∀ i lo hi n s, dim_at self st i lo hi n s →
            (0 <= width lo hi n)%Q ∧ ∃ m, passes s (width lo hi n) lo m)
    as Hstop.
  { intros i lo hi n s [Hlo Hhi _ _].
    pose proof (width_pos lo hi n (Hpos i lo hi Hlo Hhi)) as Hw.
    fold (width lo hi n) in Hw. split; [lra | by apply passes_exists]. }
  destruct (get_state_index_returns self st Hok Hlen Hstop)
    as (fuel & cell & Hc).
  exists fuel, cell. split; [done |].
  assert (∀ i lo hi n s, dim_at self st i lo hi n s →
            ((hi < s)%Q → ∃ k : Z, cell !! i = Some k ∧ Zpos n ≤ k)
            ∧ ((s < lo)%Q → cell !! i = Some 0)) as Hcell.
  { intros i lo hi n s Hd.
    destruct (Hstop _ _ _ _ _ Hd) as [Hw [m Hp]].
    pose proof (Hpos i lo hi (dim_low _ _ _ _ _ _ _ Hd)
                  (dim_high _ _ _ _ _ _ _ Hd)) as Hlt.
    assert (i < observation_space_size self)%nat as Hi.
    { rewrite <- Hlen. apply lookup_lt_is_Some.
      rewrite (dim_obs _ _ _ _ _ _ _ Hd). by eexists. }
    pose proof (cell_entry fuel self st cell i lo hi n s m
                  (Hc fuel (le_n _)) Hd Hw Hp Hi) as Hk.
    split.
    - intros Hs. exists (Z.of_nat m). split; [done |].
      apply (passes_above s lo hi); [lra | done | done].
    - intros Hs.
      assert (passes s (width lo hi n) lo 0) as Hp0
        by (apply passes_none; lra).
      by apply (cell_entry fuel self st cell i lo hi n s 0
                  (Hc fuel (le_n _)) Hd Hw Hp0 Hi). }
  split; [done |].
  intros (n0 & n1 & Hsizes & Hn0 & Hplanes) (i & lo & hi & n & s & Hd & Hs)
    fuel' Hf.
  specialize (Hc fuel' Hf).
  destruct (Hcell i lo hi n s Hd) as [Habove _].
  destruct (Habove Hs) as (k & Hk & Hnk).
  pose proof (get_state_index_Ok _ _ _ _ Hc) as [Hlc _].
  destruct Hok as (_ & _ & HD). rewrite Hsizes in HD. cbn in HD.
  rewrite <- HD in Hlc. destruct (cell_two cell Hlc) as (c0 & c1 & ->).
  assert (∀ a, q_get self c0 c1 a = IndexError) as Hq.
  { intros a. apply (q_get_above self n0 n1); [done | |].
    - intros plane Hpl. by apply Hplanes.
    - pose proof (dim_size _ _ _ _ _ _ _ Hd) as Hsz. rewrite Hsizes in Hsz.
      destruct i as [| [| i]]; cbn in Hsz, Hk; [| | done].
      + left. injection Hsz as <-. injection Hk as <-. done.
      + right. injection Hsz as <-. injection Hk as <-. done. }
  split.
  - unfold greedy_action. run_with Hc. run_with @getitem_0.
    run_with @getitem_1. by rewrite (Hq 0).
  - intros action reward next_state. unfold update. run_with Hc.
    run_with @getitem_0. run_with @getitem_1. by rewrite (Hq action).
Qed.

Lemma mountain_car_dims_ok : dims_ok mountain_car.
Proof. repeat split. Qed.

Lemma mountain_car_widths (i : nat) (lo hi : Q) :
  observation_space_low mountain_car !! i = Some lo →
  observation_space_high mountain_car !! i = Some hi → (lo < hi)%Q.
Proof.
  destruct i as [| [| i]]; cbn; intros [= <-] [= <-]; reflexivity.
Qed.

Lemma get_state_index_out_of_range_witness :
  ∃ (fuel : nat) (cell : list Z),
    (∀ fuel', (fuel ≤ fuel')%nat →
       get_state_index fuel' mountain_car [1; 0]%Q = Ok cell)
    ∧ (∀ i lo hi n s, dim_at mountain_car [1; 0]%Q i lo hi n s →
         ((hi < s)%Q → ∃ k : Z, cell !! i = Some k ∧ Zpos n ≤ k)
         ∧ ((s < lo)%Q → cell !! i = Some 0))
    ∧ (table_shape mountain_car →
       (∃ i lo hi n s, dim_at mountain_car [1; 0]%Q i lo hi n s ∧ (hi < s)%Q) →
       ∀ fuel', (fuel ≤ fuel')%nat →
         greedy_action fuel' mountain_car [1; 0]%Q = IndexError
         ∧ ∀ action reward next_state,
             update fuel' mountain_car [1; 0]%Q action reward next_state true
             = IndexError).
Proof.
  apply (get_state_index_out_of_range mountain_car [1; 0]%Q).
  - exact mountain_car_dims_ok.
  - reflexivity.
  - exact mountain_car_widths.
Defined.

(** C4 as stated fails below the range: the position [-2] is under the
    bound [-1.2], yet it is given the index [0], which is neither negative
    nor [>= 25], and the table is read there without any error. *)
Lemma get_state_index_below_low_clamps :
  (-2 < -6 # 5)%Q
  ∧ dim_at mountain_car [-2; 0]%Q 0 (-6 # 5) (3 # 5) 25 (-2)
  ∧ get_state_index 30 mountain_car [-2; 0]%Q = Ok [0; 12]
  ∧ ¬ (0 < 0 ∨ 25 ≤ 0)
  ∧ greedy_action 30 mountain_car [-2; 0]%Q = Ok 0.
Proof.
  split; [reflexivity |]. split; [by split |].
  split; [by vm_compute |]. split; [lia | by vm_compute].
Qed.


Lemma mountain_car_in_range (p v : Q) :
  (-6 # 5 <= p)%Q → (p <= 3 # 5)%Q → (-7 # 100 <= v)%Q → (v <= 7 # 100)%Q →
  in_range mountain_car [p; v].
Proof.
  intros ? ? ? ?. split; [reflexivity |].
  intros [| [| i]] lo hi s; cbn; intros [= <-] [= <-] [= <-]; by split.
Qed.


(** The indices the discretiser returns are never negative, in any
    arithmetic and for any input. *)
Lemma get_state_index_nonneg {R : Type} `{Number R} (fuel : nat)
    (self : QAgent R) (st : list R) (cell : list Z) :
  get_state_index fuel self st = Ok cell → Forall (λ k, 0 ≤ k) cell.
Proof.
  intros [Hlen Hin]%get_state_index_Ok.
  apply Forall_lookup_2. intros j k Hk.
  destruct (Hin j) as (k' & Hd & Hk').
  { rewrite <- Hlen. apply lookup_lt_is_Some. rewrite Hk. by eexists. }
  assert (k' = k) as -> by congruence.
  by apply dimension_lower in Hd.
Qed.

(** In exact arithmetic: when every dimension has positive width
    ([low[i] < high[i]]; the bucket counts are positive by their type) the
    scan stops for every observation, in or out of range, and the
    discretiser returns a cell; and whatever the input, every index
    returned is non-negative.  In floating point the scan need not stop;
    see the discretiser in floating point, below. *)
Lemma get_state_index_terminates :
  (∀ (self : QAgent Q) (st : list Q),
     dims_ok self → length st = observation_space_size self →
     (∀ i lo hi, observation_space_low self !! i = Some lo →
        observation_space_high self !! i = Some hi → (lo < hi)%Q) →
     ∃ (fuel : nat) (cell : list Z),
       (∀ fuel', (fuel ≤ fuel')%nat → get_state_index fuel' self st = Ok cell)
       ∧ Forall (λ k, 0 ≤ k) cell)
  ∧ (∀ (fuel : nat) (self : QAgent Q) (st : list Q) (cell : list Z),
       get_state_index fuel self st = Ok cell → Forall (λ k, 0 ≤ k) cell).
Proof.
  split; [| intros fuel self st cell; apply get_state_index_nonneg].
  intros self st Hok Hlen Hpos.
  destruct (get_state_index_returns self st Hok Hlen) as (fuel & cell & Hc).
  { intros i lo hi n s [Hlo Hhi _ _].
    pose proof (width_pos lo hi n (Hpos i lo hi Hlo Hhi)) as Hw.
    fold (width lo hi n) in Hw. split; [lra | by apply passes_exists]. }
  exists fuel, cell. split; [done |].
  apply (get_state_index_nonneg fuel self st), Hc. done.
Qed.

Lemma get_state_index_terminates_witness :
  ∃ (fuel : nat) (cell : list Z),
    (∀ fuel', (fuel ≤ fuel')%nat →
       get_state_index fuel' mountain_car [-1000; 1000]%Q = Ok cell)
    ∧ Forall (λ k, 0 ≤ k) cell.
Proof.
  apply (proj1 get_state_index_terminates mountain_car [-1000; 1000]%Q).
  - exact mountain_car_dims_ok.
  - reflexivity.
  - exact mountain_car_widths.
Defined.

(** ** The value table *)

Section TableFacts.
Context {R : Type} `{Number R}.

Lemma getitem_nat {A} (l : list A) (i : nat) :
  getitem l (Z.of_nat i) =
    match l !! i with Some a => Ok a | None => IndexError end.
Proof.
  destruct (l !! i) as [a |] eqn:Hl; [by apply getitem_nonneg |].
  apply getitem_above. apply lookup_ge_None in Hl. lia.
Qed.

Lemma q_get_nat (self : QAgent R) (i j a : nat) :
  q_get self (Z.of_nat i) (Z.of_nat j) (Z.of_nat a) =
    match entry self i j a with Some v => Ok v | None => IndexError end.
Proof.
  unfold q_get, entry, row_at. rewrite getitem_nat.
  destruct (q_table self !! i) as [plane |]; cbn; [| done].
  rewrite getitem_nat. destruct (plane !! j) as [row |]; cbn; [| done].
  apply getitem_nat.
Qed.

Lemma q_get_entry (self : QAgent R) (c0 c1 a : Z) (v : R) :
  0 ≤ c0 → 0 ≤ c1 → 0 ≤ a →
  entry self (Z.to_nat c0) (Z.to_nat c1) (Z.to_nat a) = Some v →
  q_get self c0 c1 a = Ok v.
Proof.
  intros H0 H1 Ha He.
  rewrite <- (Z2Nat.id c0), <- (Z2Nat.id c1), <- (Z2Nat.id a) by done.
  by rewrite q_get_nat, He.
Qed.

(** Writing an entry that exists succeeds, puts the value there and
    touches nothing else. *)
Lemma q_set_nat (self : QAgent R) (i j a : nat) (old v : R) :
  entry self i j a = Some old →
  ∃ self',
    q_set self (Z.of_nat i) (Z.of_nat j) (Z.of_nat a) v = Ok self'
    ∧ entry self' i j a = Some v
    ∧ (∀ i' j' a', (i', j', a') ≠ (i, j, a) →
         entry self' i' j' a' = entry self i' j' a')
    ∧ (∀ i' j', length <$> row_at self' i' j' = length <$> row_at self i' j')
    ∧ ∃ t, self' = set_q_table self t.
Proof.
  unfold entry, row_at, q_set. intros He.
  destruct (q_table self !! i) as [plane |] eqn:Hp; [| done]. cbn in He.
  destruct (plane !! j) as [row |] eqn:Hr; [| done]. cbn in He.
  pose proof (lookup_lt_Some _ _ _ Hp) as Hi.
  pose proof (lookup_lt_Some _ _ _ Hr) as Hj.
  pose proof (lookup_lt_Some _ _ _ He) as Ha.
  eexists. split.
  { run_with (getitem_nonneg _ _ _ Hp). run_with (getitem_nonneg _ _ _ Hr).
    do 3 (rewrite setitem_nonneg by done; cbn [mbind result_bind]).
    reflexivity. }
  cbn [q_table set_q_table].
  split; [| split; [| split; [| by eexists]]].
  - rewrite list_lookup_insert_eq by done. cbn.
    rewrite list_lookup_insert_eq by done. cbn.
    by apply list_lookup_insert_eq.
  - intros i' j' a' Hne.
    destruct (decide (i' = i)) as [-> | Hi'];
      [| by rewrite list_lookup_insert_ne].
    rewrite list_lookup_insert_eq, Hp by done. cbn.
    destruct (decide (j' = j)) as [-> | Hj'];
      [| by rewrite list_lookup_insert_ne].
    rewrite list_lookup_insert_eq, Hr by done. cbn.
    apply list_lookup_insert_ne. congruence.
  - intros i' j'.
    destruct (decide (i' = i)) as [-> | Hi'];
      [| by rewrite list_lookup_insert_ne].
    rewrite list_lookup_insert_eq, Hp by done. cbn.
    destruct (decide (j' = j)) as [-> | Hj'];
      [| by rewrite list_lookup_insert_ne].
    rewrite list_lookup_insert_eq, Hr by done. cbn.
    by rewrite length_insert.
Qed.

Lemma q_set_entry (self : QAgent R) (c0 c1 a : Z) (old v : R) :
  0 ≤ c0 → 0 ≤ c1 → 0 ≤ a →
  entry self (Z.to_nat c0) (Z.to_nat c1) (Z.to_nat a) = Some old →
  ∃ self',
    q_set self c0 c1 a v = Ok self'
    ∧ entry self' (Z.to_nat c0) (Z.to_nat c1) (Z.to_nat a) = Some v
    ∧ (∀ i' j' a', (i', j', a') ≠ (Z.to_nat c0, Z.to_nat c1, Z.to_nat a) →
         entry self' i' j' a' = entry self i' j' a')
    ∧ (∀ i' j', length <$> row_at self' i' j' = length <$> row_at self i' j')
    ∧ ∃ t, self' = set_q_table self t.
Proof.
  intros H0 H1 Ha He.
  destruct (q_set_nat self _ _ _ old v He) as (self' & Hset & Hrest).
  exists self'. split; [| done].
  by rewrite !Z2Nat.id in Hset by done.
Qed.

End TableFacts.

(** ** The update rule, in any arithmetic *)

Section UpdateFacts.
Context {R : Type} `{Number R}.
Local Open Scope num_scope.

Lemma getitem_0_inv {A} (l : list A) (a : A) :
  getitem l 0 = Ok a → ∃ l', l = a :: l'.
Proof.
  destruct l as [| a' l']; [done |].
  rewrite getitem_0. intros [= <-]. by eexists.
Qed.

Lemma getitem_1_inv {A} (a b : A) (l : list A) :
  getitem (a :: l) 1 = Ok b → ∃ l', l = b :: l'.
Proof.
  destruct l as [| b' l']; [done |].
  rewrite getitem_1. intros [= <-]. by eexists.
Qed.

Lemma q_get_Ok_entry (self : QAgent R) (c0 c1 a : Z) (v : R) :
  0 ≤ c0 → 0 ≤ c1 → 0 ≤ a →
  q_get self c0 c1 a = Ok v →
  entry self (Z.to_nat c0) (Z.to_nat c1) (Z.to_nat a) = Some v.
Proof.
  intros H0 H1 Ha.
  rewrite <- (Z2Nat.id c0), <- (Z2Nat.id c1), <- (Z2Nat.id a) at 1 by done.
  rewrite q_get_nat.
  destruct (entry self _ _ _); [by intros [= <-] | done].
Qed.

Lemma cell_nonneg (fuel : nat) (self : QAgent R) (st : list R)
    (c0 c1 : Z) (rest : list Z) :
  get_state_index fuel self st = Ok (c0 :: c1 :: rest) → 0 ≤ c0 ∧ 0 ≤ c1.
Proof.
  intros Hc%get_state_index_nonneg.
  apply Forall_cons in Hc as [? Hc]. by apply Forall_cons in Hc as [? _].
Qed.

Lemma update_terminal_run (fuel : nat) (self : QAgent R) (st : list R)
    (action : Z) (reward : R) (next_state : list R)
    (c0 c1 : Z) (rest : list Z) (old : R) :
  get_state_index fuel self st = Ok (c0 :: c1 :: rest) →
  0 ≤ action →
  entry self (Z.to_nat c0) (Z.to_nat c1) (Z.to_nat action) = Some old →
  ∃ self',
    update fuel self st action reward next_state true = Ok self'
    ∧ updated self self' c0 c1 action (terminal_value self old reward).
Proof.
  intros Hc Ha He. destruct (cell_nonneg _ _ _ _ _ _ Hc) as [H0 H1].
  destruct (q_set_entry self c0 c1 action old
              (terminal_value self old reward) H0 H1 Ha He)
    as (self' & Hset & ? & ? & ? & ?).
  exists self'. split; [| by split].
  unfold update. run_with Hc. run_with @getitem_0. run_with @getitem_1.
  run_with (q_get_entry self c0 c1 action old H0 H1 Ha He). exact Hset.
Qed.

Lemma update_bootstrap_run (fuel : nat) (self : QAgent R) (st : list R)
    (action : Z) (reward : R) (next_state : list R)
    (c0 c1 : Z) (rest : list Z) (n0 n1 : Z) (rest' : list Z)
    (old q0 q1 q2 : R) :
  get_state_index fuel self st = Ok (c0 :: c1 :: rest) →
  get_state_index fuel self next_state = Ok (n0 :: n1 :: rest') →
  entry self (Z.to_nat n0) (Z.to_nat n1) 0 = Some q0 →
  entry self (Z.to_nat n0) (Z.to_nat n1) 1 = Some q1 →
  entry self (Z.to_nat n0) (Z.to_nat n1) 2 = Some q2 →
  0 ≤ action →
  entry self (Z.to_nat c0) (Z.to_nat c1) (Z.to_nat action) = Some old →
  ∃ self',
    update fuel self st action reward next_state false = Ok self'
    ∧ updated self self' c0 c1 action
        (bootstrap_value self old reward (py_max3 q0 q1 q2)).
Proof.
  intros Hc Hn Hq0 Hq1 Hq2 Ha He.
  destruct (cell_nonneg _ _ _ _ _ _ Hc) as [H0 H1].
  destruct (cell_nonneg _ _ _ _ _ _ Hn) as [Hn0 Hn1].
  destruct (q_set_entry self c0 c1 action old
              (bootstrap_value self old reward (py_max3 q0 q1 q2))
              H0 H1 Ha He)
    as (self' & Hset & ? & ? & ? & ?).
  exists self'. split; [| by split].
  unfold update. run_with Hc. run_with Hn.
  run_with (getitem_0 n0 (n1 :: rest')). run_with (getitem_1 n0 n1 rest').
  run_with (q_get_entry self n0 n1 0 q0 Hn0 Hn1 ltac:(lia) Hq0).
  run_with (q_get_entry self n0 n1 1 q1 Hn0 Hn1 ltac:(lia) Hq1).
  run_with (q_get_entry self n0 n1 2 q2 Hn0 Hn1 ltac:(lia) Hq2).
  run_with (getitem_0 c0 (c1 :: rest)). run_with (getitem_1 c0 c1 rest).
  run_with (q_get_entry self c0 c1 action old H0 H1 Ha He). exact Hset.
Qed.

(** Conversely a successful [update] went through one of the two runs
    above. *)
Lemma update_Ok_inv (fuel : nat) (self self' : QAgent R) (st : list R)
    (action : Z) (reward : R) (next_state : list R) (is_terminal : bool) :
  0 ≤ action →
  update fuel self st action reward next_state is_terminal = Ok self' →
  ∃ c0 c1 rest new,
    get_state_index fuel self st = Ok (c0 :: c1 :: rest)
    ∧ updated self self' c0 c1 action new.
Proof.
  intros Ha. unfold update.
  intros (cell & Hc & Hu)%bind_Ok.
  destruct is_terminal.
  - apply bind_Ok in Hu as (c0 & Hc0 & Hu).
    apply bind_Ok in Hu as (c1 & Hc1 & Hu).
    apply bind_Ok in Hu as (old & Hold & Hu).
    apply getitem_0_inv in Hc0 as [l' ->].
    apply getitem_1_inv in Hc1 as [rest ->].
    destruct (cell_nonneg _ _ _ _ _ _ Hc) as [H0 H1].
    apply q_get_Ok_entry in Hold; [| done..].
    destruct (update_terminal_run fuel self st action reward next_state
                c0 c1 rest old Hc Ha Hold) as (self'' & Hrun & Hupd).
    unfold update in Hrun. rewrite Hc in Hrun. cbn [mbind result_bind] in Hrun.
    rewrite getitem_0 in Hrun. cbn [mbind result_bind] in Hrun.
    rewrite getitem_1 in Hrun. cbn [mbind result_bind] in Hrun.
    rewrite (q_get_entry self c0 c1 action old H0 H1 Ha Hold) in Hrun.
    cbn [mbind result_bind] in Hrun.
    assert (self'' = self') as -> by congruence.
    by exists c0, c1, rest, (terminal_value self old reward).
  - apply bind_Ok in Hu as (ncell & Hn & Hu).
    apply bind_Ok in Hu as (n0 & Hn0 & Hu).
    apply bind_Ok in Hu as (n1 & Hn1 & Hu).
    apply bind_Ok in Hu as (q0 & Hq0 & Hu).
    apply bind_Ok in Hu as (q1 & Hq1 & Hu).
    apply bind_Ok in Hu as (q2 & Hq2 & Hu).
    apply bind_Ok in Hu as (c0 & Hc0 & Hu).
    apply bind_Ok in Hu as (c1 & Hc1 & Hu).
    apply bind_Ok in Hu as (old & Hold & Hu).
    apply getitem_0_inv in Hc0 as [l' ->].
    apply getitem_1_inv in Hc1 as [rest ->].
    destruct (cell_nonneg _ _ _ _ _ _ Hc) as [H0 H1].
    apply q_get_Ok_entry in Hold; [| done..].
    destruct (q_set_entry self c0 c1 action old
                (bootstrap_value self old reward (py_max3 q0 q1 q2))
                H0 H1 Ha Hold)
      as (self'' & Hset & ? & ? & ? & ?).
    assert (self'' = self') as ->
      by (unfold bootstrap_value in Hset; congruence).
    by exists c0, c1, rest,
      (bootstrap_value self old reward (py_max3 q0 q1 q2)).
Qed.

End UpdateFacts.

(** ** The update rule over [Q] *)





(** C2.  A terminal [update] writes [old * (1 - alpha) + alpha * reward] at
    (discretize(state), action): no bootstrapped term, whatever the next
    state and whatever the rest of the table holds; with [old = 5],
    [reward = 10] and [alpha = 0.1] that is 5.5. *)
Theorem update_terminal :
  (∀ (fuel : nat) (self : QAgent Q) (st : list Q) (action : Z) (reward : Q)
     (next_state : list Q) (c0 c1 : Z) (old : Q),
     get_state_index fuel self st = Ok [c0; c1] →
     0 ≤ action →
     entry self (Z.to_nat c0) (Z.to_nat c1) (Z.to_nat action) = Some old →
     ∃ self' : QAgent Q,
       update fuel self st action reward next_state true = Ok self'
       ∧ entry self' (Z.to_nat c0) (Z.to_nat c1) (Z.to_nat action)
         = Some (old * (1 - alpha self) + alpha self * reward)%Q)
  ∧ (∀ (fuel : nat) (self1 self2 : QAgent Q) (st : list Q) (action : Z)
       (reward : Q) (next1 next2 : list Q) (c0 c1 : Z) (old : Q),
       alpha self1 = alpha self2 →
       get_state_index fuel self1 st = Ok [c0; c1] →
       get_state_index fuel self2 st = Ok [c0; c1] →
       0 ≤ action →
       entry self1 (Z.to_nat c0) (Z.to_nat c1) (Z.to_nat action) = Some old →
       entry self2 (Z.to_nat c0) (Z.to_nat c1) (Z.to_nat action) = Some old →
       ∃ (self1' self2' : QAgent Q) (new : Q),
         update fuel self1 st action reward next1 true = Ok self1'
         ∧ update fuel self2 st action reward next2 true = Ok self2'
         ∧ entry self1' (Z.to_nat c0) (Z.to_nat c1) (Z.to_nat action)
           = Some new
         ∧ entry self2' (Z.to_nat c0) (Z.to_nat c1) (Z.to_nat action)
           = Some new)
  ∧ (∃ (self' : QAgent Q) (new : Q),
       entry unit_grid 0 0 0 = Some 5%Q
       ∧ update 2 unit_grid [1 # 2; 1 # 2]%Q 0 10%Q [3 # 2; 1 # 2]%Q true
         = Ok self'
       ∧ entry self' 0 0 0 = Some new
       ∧ (new == 55 # 10)%Q).
Proof.
  split; [| split].
  - intros fuel self st action reward next_state c0 c1 old Hc Ha He.
    destruct (update_terminal_run fuel self st action reward next_state
                c0 c1 [] old Hc Ha He) as (self' & Hrun & Hupd).
    exists self'. split; [done | apply Hupd].
  - intros fuel self1 self2 st action reward next1 next2 c0 c1 old
      Halpha Hc1 Hc2 Ha He1 He2.
    destruct (update_terminal_run fuel self1 st action reward next1
                c0 c1 [] old Hc1 Ha He1) as (self1' & Hrun1 & Hupd1).
    destruct (update_terminal_run fuel self2 st action reward next2
                c0 c1 [] old Hc2 Ha He2) as (self2' & Hrun2 & Hupd2).
    exists self1', self2', (terminal_value self1 old reward).
    split; [done |]. split; [done |]. split; [apply Hupd1 |].
    unfold terminal_value. rewrite Halpha. apply Hupd2.
  - eexists _, _. split; [reflexivity |].
    split; [vm_compute; reflexivity |]. split; [vm_compute; reflexivity |].
    reflexivity.
Qed.

Lemma update_terminal_witness :
  ∃ self' : QAgent Q,
    update 2 unit_grid [1 # 2; 1 # 2]%Q 0 10%Q [] true = Ok self'
    ∧ entry self' (Z.to_nat 0) (Z.to_nat 0) (Z.to_nat 0)
      = Some (5 * (1 - alpha unit_grid) + alpha unit_grid * 10)%Q.
Proof.
  apply (proj1 update_terminal 2%nat unit_grid [1 # 2; 1 # 2]%Q 0 10%Q []
           0 0 5%Q).
  - vm_compute. reflexivity.
  - lia.
  - reflexivity.
Defined.

(** In a table of the declared shape every cell within the bucket counts
    has an entry for every action. *)
Lemma shape_entry {R : Type} (self : QAgent R) (n0 n1 : positive)
    (i j a : nat) :
  length (q_table self) = Pos.to_nat n0 →
  (∀ plane, plane ∈ q_table self →
     length plane = Pos.to_nat n1
     ∧ ∀ row, row ∈ plane → length row = actions self) →
  (i < Pos.to_nat n0)%nat → (j < Pos.to_nat n1)%nat → (a < actions self)%nat →
  ∃ v, entry self i j a = Some v.
Proof.
  intros H0 Hplanes Hi Hj Ha. unfold entry, row_at.
  destruct (lookup_lt_is_Some_2 (q_table self) i) as [plane Hp]; [lia |].
  rewrite Hp. cbn.
  destruct (Hplanes plane) as [H1 Hrows];
    [by apply list_elem_of_lookup_2 in Hp |].
  destruct (lookup_lt_is_Some_2 plane j) as [row Hr]; [lia |].
  rewrite Hr. cbn.
  apply lookup_lt_is_Some_2. rewrite (Hrows row); [done |].
  by apply list_elem_of_lookup_2 in Hr.
Qed.

(** The cell of an observation within the bounds lies inside the table. *)
Lemma in_range_cell_entry (self : QAgent Q) (st : list Q) :
  dims_ok self → table_shape self → in_range self st →
  ∃ (fuel : nat) (c0 c1 : Z),
    (∀ fuel', (fuel ≤ fuel')%nat →
       get_state_index fuel' self st = Ok [c0; c1])
    ∧ ∀ a : Z, 0 ≤ a < Z.of_nat (actions self) →
        ∃ v, entry self (Z.to_nat c0) (Z.to_nat c1) (Z.to_nat a) = Some v.
Proof.
  intros Hok (n0 & n1 & Hsizes & Hn0 & Hplanes) Hin.
  destruct (in_range_cell self st Hok Hin) as (fuel & cell & Hc & Hlen & Hk).
  pose proof Hok as (Hlo & Hhi & HD). rewrite Hsizes in HD. cbn in HD.
  rewrite <- HD in Hlen. destruct (cell_two cell Hlen) as (c0 & c1 & ->).
  exists fuel, c0, c1. split; [done |]. intros a Ha.
  destruct Hin as [Hst Hin].
  destruct (dim_at_exists self st 0 Hok Hst ltac:(lia))
    as (lo0 & hi0 & m0 & s0 & Hd0).
  destruct (dim_at_exists self st 1 Hok Hst ltac:(lia))
    as (lo1 & hi1 & m1 & s1 & Hd1).
  destruct (Hk _ _ _ _ _ Hd0) as (k0 & Hk0 & _ & _ & Hlt0).
  destruct (Hk _ _ _ _ _ Hd1) as (k1 & Hk1 & _ & _ & Hlt1).
  pose proof (dim_size _ _ _ _ _ _ _ Hd0) as Hs0.
  pose proof (dim_size _ _ _ _ _ _ _ Hd1) as Hs1.
  rewrite Hsizes in Hs0, Hs1. cbn in Hs0, Hs1, Hk0, Hk1.
  injection Hs0 as <-. injection Hs1 as <-.
  injection Hk0 as ->. injection Hk1 as ->.
  apply (shape_entry self n0 n1); [done | done | lia..].
Qed.

(** In exact arithmetic: a successful [update] changes the table at the
    one entry of (discretize(state), action) and nowhere else, keeps the
    shape of the table and leaves every other field of the agent as it was;
    and for observations within the bounds, a table of the declared shape
    and an action among the three, it does succeed.  The first part does
    not depend on the arithmetic ([update_Ok_inv]); the second fails in
    floating point at the upper bounds, as shown below. *)
Lemma update_frame :
  (∀ (fuel : nat) (self self' : QAgent Q) (st : list Q) (action : Z)
     (reward : Q) (next_state : list Q) (is_terminal : bool),
     0 ≤ action →
     update fuel self st action reward next_state is_terminal = Ok self' →
     ∃ (c0 c1 : Z) (rest : list Z),
       get_state_index fuel self st = Ok (c0 :: c1 :: rest)
       ∧ (∀ i j a : nat,
            (i, j, a) ≠ (Z.to_nat c0, Z.to_nat c1, Z.to_nat action) →
            entry self' i j a = entry self i j a)
       ∧ (∀ i j : nat,
            length <$> row_at self' i j = length <$> row_at self i j)
       ∧ epsilon self' = epsilon self
       ∧ epsilon_decay self' = epsilon_decay self
       ∧ observation_space_low self' = observation_space_low self
       ∧ observation_space_high self' = observation_space_high self
       ∧ discrete_sizes self' = discrete_sizes self
       ∧ observation_space_size self' = observation_space_size self
       ∧ actions self' = actions self
       ∧ alpha self' = alpha self
       ∧ gamma self' = gamma self
       ∧ state self' = state self)
  ∧ (∀ (self : QAgent Q) (st : list Q) (action : Z) (reward : Q)
       (next_state : list Q) (is_terminal : bool),
       dims_ok self → table_shape self → actions self = 3%nat →
       in_range self st → in_range self next_state →
       0 ≤ action < 3 →
       ∃ fuel : nat, ∀ fuel', (fuel ≤ fuel')%nat →
         ∃ self' : QAgent Q,
           update fuel' self st action reward next_state is_terminal
           = Ok self').
Proof.
  split.
  - intros fuel self self' st action reward next_state is_terminal Ha Hu.
    destruct (update_Ok_inv fuel self self' st action reward next_state
                is_terminal Ha Hu) as (c0 & c1 & rest & new & Hc & Hupd).
    exists c0, c1, rest. split; [done |].
    split; [apply Hupd |]. split; [apply Hupd |].
    destruct (upd_fields _ _ _ _ _ _ Hupd) as [t ->]. by repeat split.
  - intros self st action reward next_state is_terminal
      Hok Hshape Hact Hin Hnext Ha.
    destruct (in_range_cell_entry self st Hok Hshape Hin)
      as (f1 & c0 & c1 & Hc & Hentry).
    destruct (in_range_cell_entry self next_state Hok Hshape Hnext)
      as (f2 & n0 & n1 & Hn & Hnentry).
    exists (f1 `max` f2)%nat. intros fuel' Hf.
    specialize (Hc fuel' ltac:(lia)). specialize (Hn fuel' ltac:(lia)).
    destruct (Hentry action ltac:(lia)) as [old Hold].
    destruct is_terminal.
    + destruct (update_terminal_run fuel' self st action reward next_state
                  c0 c1 [] old Hc ltac:(lia) Hold) as (self' & Hrun & _).
      by exists self'.
    + destruct (Hnentry 0 ltac:(lia)) as [q0 Hq0].
      destruct (Hnentry 1 ltac:(lia)) as [q1 Hq1].
      destruct (Hnentry 2 ltac:(lia)) as [q2 Hq2].
      destruct (update_bootstrap_run fuel' self st action reward next_state
                  c0 c1 [] n0 n1 [] old q0 q1 q2 Hc Hn Hq0 Hq1 Hq2
                  ltac:(lia) Hold) as (self' & Hrun & _).
      by exists self'.
Qed.

Lemma mountain_car_shape : table_shape mountain_car.
Proof.
  exists 25%positive, 25%positive. split; [reflexivity |].
  split; [reflexivity |].
  intros plane [-> _]%elem_of_replicate. split; [reflexivity |].
  by intros row [-> _]%elem_of_replicate.
Qed.

Lemma update_frame_witness :
  ∃ fuel : nat, ∀ fuel', (fuel ≤ fuel')%nat →
    ∃ self' : QAgent Q,
      update fuel' mountain_car [-1 # 2; 0]%Q 2 (-1)%Q
        [-49 # 100; 1 # 100]%Q false = Ok self'.
Proof.
  apply (proj2 update_frame mountain_car [-1 # 2; 0]%Q 2 (-1)%Q
           [-49 # 100; 1 # 100]%Q false).
  - exact mountain_car_dims_ok.
  - exact mountain_car_shape.
  - reflexivity.
  - apply mountain_car_in_range; discriminate.
  - apply mountain_car_in_range; discriminate.
  - lia.
Defined.

(** ** The greedy policy *)

Lemma greedy_action_run {R : Type} `{Number R} (fuel : nat) (self : QAgent R)
    (st : list R) (c0 c1 : Z) (rest : list Z) (q0 q1 q2 : R) :
  get_state_index fuel self st = Ok (c0 :: c1 :: rest) →
  entry self (Z.to_nat c0) (Z.to_nat c1) 0 = Some q0 →
  entry self (Z.to_nat c0) (Z.to_nat c1) 1 = Some q1 →
  entry self (Z.to_nat c0) (Z.to_nat c1) 2 = Some q2 →
  greedy_action fuel self st = Ok (greedy_choice q0 q1 q2).
Proof.
  intros Hc Hq0 Hq1 Hq2.
  destruct (cell_nonneg _ _ _ _ _ _ Hc) as [H0 H1].
  unfold greedy_action, greedy_choice. run_with Hc.
  run_with (getitem_0 c0 (c1 :: rest)). run_with (getitem_1 c0 c1 rest).
  run_with (q_get_entry self c0 c1 0 q0 H0 H1 ltac:(lia) Hq0).
  run_with (q_get_entry self c0 c1 1 q1 H0 H1 ltac:(lia) Hq1).
  destruct (num_gt q1 q0);
    run_with (q_get_entry self c0 c1 2 q2 H0 H1 ltac:(lia) Hq2); done.
Qed.

Lemma Q_gt_true (x y : Q) : (x >? y)%num = true ↔ (y < x)%Q.
Proof.
  cbn. rewrite negb_true_iff, <- not_true_iff_false, Qle_bool_iff. lra.
Qed.

Lemma Q_gt_false (x y : Q) : (x >? y)%num = false ↔ (x <= y)%Q.
Proof. cbn. by rewrite negb_false_iff, Qle_bool_iff. Qed.



(** ** The driver *)

(** C7.  [env_step] hands [update] the flag [terminated and not truncated]:
    whenever the step is truncated the flag is false, so the bootstrapping
    branch runs.  A truncated, not terminated step from cell (0, 0) of
    [unit_grid] writes the bootstrapped 4.79 (the terminal branch would
    write 4.6). *)
Theorem env_step_is_terminal :
  (∀ (fuel : nat) (self : QAgent Q) (rand : Q) (pick : Z)
     (env : Z → step_result Q) (action : Z),
     get_action fuel self rand pick = Ok action →
     env_step fuel self rand pick env =
       (self' ← update fuel self (state self) action
                  (sr_reward (env action)) (sr_next_state (env action))
                  (sr_terminated (env action)
                   && negb (sr_truncated (env action)));
        Ok (set_state self' (sr_next_state (env action)),
            sr_terminated (env action) || sr_truncated (env action))))
  ∧ (∀ (fuel : nat) (self : QAgent Q) (rand : Q) (pick : Z)
       (env : Z → step_result Q) (action : Z),
       get_action fuel self rand pick = Ok action →
       sr_truncated (env action) = true →
       env_step fuel self rand pick env =
         (self' ← update fuel self (state self) action
                    (sr_reward (env action)) (sr_next_state (env action))
                    false;
          Ok (set_state self' (sr_next_state (env action)), true)))
  ∧ (∃ (self' : QAgent Q) (new : Q),
       env_step 2 unit_grid (1 # 2)%Q 0
         (λ _, mkStep [3 # 2; 1 # 2]%Q 1%Q false true) = Ok (self', true)
       ∧ entry self' 0 0 0 = Some new
       ∧ (new == 479 # 100)%Q
       ∧ ¬ (new == 46 # 10)%Q).
Proof.
  split; [| split].
  - intros fuel self rand pick env action Hact.
    unfold env_step. by rewrite Hact.
  - intros fuel self rand pick env action Hact Htrunc.
    unfold env_step. rewrite Hact. cbn [mbind result_bind].
    by rewrite Htrunc, andb_false_r, orb_true_r.
  - eexists _, _. split; [vm_compute; reflexivity |].
    split; [vm_compute; reflexivity |]. split; [reflexivity | discriminate].
Qed.

Lemma env_step_is_terminal_witness :
  env_step 2 unit_grid (1 # 2)%Q 0
    (λ _, mkStep [3 # 2; 1 # 2]%Q 1%Q true true) =
    (self' ← update 2 unit_grid (state unit_grid) 0 1%Q [3 # 2; 1 # 2]%Q
               false;
     Ok (set_state self' [3 # 2; 1 # 2]%Q, true)).
Proof.
  apply (proj1 (proj2 env_step_is_terminal) 2%nat unit_grid (1 # 2)%Q 0
           (λ _, mkStep [3 # 2; 1 # 2]%Q 1%Q true true) 0).
  - reflexivity.
  - reflexivity.
Defined.

(** ** Training: the exploration schedule *)

Section TrainingFacts.
Context {R : Type} `{Number R}.
Local Open Scope num_scope.

Lemma q_set_fields (self self' : QAgent R) (c0 c1 a : Z) (v : R) :
  q_set self c0 c1 a v = Ok self' → ∃ t, self' = set_q_table self t.
Proof.
  unfold q_set.
  intros (? & _ & (? & _ & (? & _ & (? & _ & (t & _ & Hu)%bind_Ok
    )%bind_Ok)%bind_Ok)%bind_Ok)%bind_Ok.
  injection Hu as <-. by exists t.
Qed.

Lemma update_fields (fuel : nat) (self self' : QAgent R) (st : list R)
    (action : Z) (reward : R) (next_state : list R) (is_terminal : bool) :
  update fuel self st action reward next_state is_terminal = Ok self' →
  ∃ t, self' = set_q_table self t.
Proof.
  unfold update. intros (cell & _ & Hu)%bind_Ok. destruct is_terminal.
  - apply bind_Ok in Hu as (? & _ & (? & _ & (? & _ & Hu)%bind_Ok
      )%bind_Ok). by apply q_set_fields in Hu.
  - apply bind_Ok in Hu as (? & _ & (? & _ & (? & _ & (? & _ & (? & _
      & (? & _ & (? & _ & (? & _ & (? & _ & Hu)%bind_Ok)%bind_Ok)%bind_Ok
      )%bind_Ok)%bind_Ok)%bind_Ok)%bind_Ok)%bind_Ok).
    by apply q_set_fields in Hu.
Qed.

Lemma env_step_epsilon (fuel : nat) (self : QAgent R) (rand : R) (pick : Z)
    (env : Z → step_result R) (r : QAgent R * bool) :
  env_step fuel self rand pick env = Ok r →
  epsilon r.1 = epsilon self ∧ epsilon_decay r.1 = epsilon_decay self.
Proof.
  unfold env_step.
  intros (action & _ & (self' & Hu & Hr)%bind_Ok)%bind_Ok.
  injection Hr as <-. apply update_fields in Hu as [t ->]. done.
Qed.

Lemma episode_loop_epsilon (limit fuel : nat) (w : world R) :
  ∀ (self : QAgent R) (t : nat) (r : QAgent R * nat),
    episode_loop limit fuel w self t = Ok r →
    epsilon r.1 = epsilon self ∧ epsilon_decay r.1 = epsilon_decay self.
Proof.
  induction limit as [| limit IH]; intros self t r Hr; [done |].
  cbn in Hr. apply bind_Ok in Hr as ([self1 done] & Hs & Hr).
  apply env_step_epsilon in Hs as [He Hd]. cbn in He, Hd, Hr.
  destruct done.
  - injection Hr as <-. done.
  - apply IH in Hr as [He' Hd']. split; congruence.
Qed.

Lemma decay_epsilon_iter (n : nat) (self : QAgent R) :
  epsilon_decay (Nat.iter n decay_epsilon self) = epsilon_decay self
  ∧ epsilon (Nat.iter n decay_epsilon self)
    = Nat.iter n (epsilon_step (epsilon_decay self)) (epsilon self).
Proof.
  induction n as [| n [IHd IHe]]; [done |].
  rewrite !Nat.iter_succ. unfold decay_epsilon at 1 3.
  cbn [epsilon_decay epsilon set_epsilon]. by rewrite IHd, IHe.
Qed.

(** Training for [n] episodes leaves [epsilon] at [epsilon_after n]:
    only the end of an episode changes it. *)
Lemma train_loop_epsilon (n limit fuel : nat) (w : world R) :
  ∀ (self self' : QAgent R) (t ep : nat),
    train_loop n limit fuel w self t ep = Ok self' →
    epsilon_decay self' = epsilon_decay self
    ∧ epsilon self' = epsilon_after n self.
Proof.
  unfold epsilon_after.
  induction n as [| n IH]; intros self self' t ep Hr.
  - injection Hr as <-. done.
  - cbn [train_loop] in Hr. apply bind_Ok in Hr as ([self1 t1] & Hep & Hr).
    apply episode_loop_epsilon in Hep as [He Hd]. cbn [fst] in He, Hd.
    apply IH in Hr as [Hd' He'].
    rewrite (proj2 (decay_epsilon_iter _ _)) in He'.
    cbn [epsilon_decay epsilon decay_epsilon set_epsilon set_state]
      in Hd', He'.
    rewrite Hd in Hd', He'. rewrite He in He'.
    split; [done |].
    rewrite (proj2 (decay_epsilon_iter _ _)), Nat.iter_succ_r. exact He'.
Qed.

End TrainingFacts.

(** *** In exact arithmetic *)

Lemma epsilon_step_Q (d e : Q) :
  ((0 < e - d)%Q → epsilon_step d e = (e - d)%Q)
  ∧ ((e - d <= 0)%Q → epsilon_step d e = 0%Q).
Proof.
  unfold epsilon_step, py_max2.
  destruct ((e - d)%num >? of_Z 0)%num eqn:Hgt;
    [apply Q_gt_true in Hgt | apply Q_gt_false in Hgt];
    cbn in Hgt |- *; change (inject_Z 0) with 0%Q in *;
    split; intros ?; (done || (exfalso; lra)).
Qed.

(** The schedule of [init], step by step: a straight line from 1 down to
    0 at episode 15000, and 0 from there on. *)
Lemma exact_schedule (n : nat) :
  let e := Nat.iter n (epsilon_step (1 / inject_Z 15000)%Q) 1%Q in
  (Z.of_nat n ≤ 15000 → (e == 1 - inject_Z (Z.of_nat n) * (1 # 15000))%Q)
  ∧ (15000 ≤ Z.of_nat n → (e == 0)%Q).
Proof.
  induction n as [| n [IHdown IHzero]]; cbn zeta.
  - split; [intros _; reflexivity | intros ?; lia].
  - rewrite Nat.iter_succ.
    set (e := Nat.iter n (epsilon_step (1 / inject_Z 15000)%Q) 1%Q) in *.
    cbn zeta in IHdown, IHzero.
    assert ((1 / inject_Z 15000 == 1 # 15000)%Q) as Hd by reflexivity.
    rewrite Nat2Z.inj_succ, <- Z.add_1_r, inject_Z_plus.
    change (inject_Z 1) with 1%Q.
    destruct (epsilon_step_Q (1 / inject_Z 15000)%Q e) as [Hpos Hneg].
    destruct (Qlt_le_dec 0 (e - 1 / inject_Z 15000)) as [Hlt | Hle].
    + rewrite (Hpos Hlt). split.
      * intros Hn. rewrite (IHdown ltac:(lia)). lra.
      * intros Hn. destruct (decide (Z.of_nat n < 15000)) as [Hn' | Hn'].
        -- rewrite (IHdown ltac:(lia)). assert (Z.of_nat n = 14999) as -> by lia.
           reflexivity.
        -- rewrite (IHzero ltac:(lia)) in Hlt. lra.
    + rewrite (Hneg Hle). split; [| reflexivity].
      intros Hn. rewrite (IHdown ltac:(lia)) in Hle.
      assert (inject_Z (Z.of_nat n) + 1 <= 15000)%Q as Hq.
      { change 1%Q with (inject_Z 1). change 15000%Q with (inject_Z 15000).
        rewrite <- inject_Z_plus, <- Zle_Qle. lia. }
      lra.
Qed.

(** In exact arithmetic the schedule behaves as the comment of line 48
    says: it never increases, is 0 after 15000 episodes and stays 0. *)
Lemma epsilon_exact_schedule (state0 : list Q) (n_actions : nat)
    (low high : list Q) (table : list (list (list Q))) :
  let self := init state0 n_actions low high table in
  (epsilon self == 1)%Q
  ∧ (∀ n : nat, (epsilon_after (S n) self <= epsilon_after n self)%Q)
  ∧ (∀ n : nat, Z.of_nat n ≤ 15000 →
       (epsilon_after n self == 1 - inject_Z (Z.of_nat n) * (1 # 15000))%Q)
  ∧ (epsilon_after (Z.to_nat 15000) self == 0)%Q
  ∧ (∀ n : nat, 15000 ≤ Z.of_nat n → (epsilon_after n self == 0)%Q).
Proof.
  intros self. unfold epsilon_after.
  assert (∀ n, epsilon (Nat.iter n decay_epsilon self)
               = Nat.iter n (epsilon_step (1 / inject_Z 15000)%Q) 1%Q) as Hit
    by (intros n; apply decay_epsilon_iter).
  split; [reflexivity |]. split; [| split; [| split]].
  - intros n. rewrite !Hit, Nat.iter_succ.
    set (e := Nat.iter n _ _).
    assert (0 <= e)%Q as He.
    { subst e. destruct n as [| n]; [discriminate |].
      rewrite Nat.iter_succ.
      destruct (epsilon_step_Q (1 / inject_Z 15000)%Q
                  (Nat.iter n (epsilon_step (1 / inject_Z 15000)%Q) 1%Q))
        as [Hpos Hneg].
      destruct (Qlt_le_dec 0
                  (Nat.iter n (epsilon_step (1 / inject_Z 15000)%Q) 1%Q
                   - 1 / inject_Z 15000)) as [Hlt | Hle].
      - rewrite (Hpos Hlt). lra.
      - rewrite (Hneg Hle). discriminate. }
    destruct (epsilon_step_Q (1 / inject_Z 15000)%Q e) as [Hpos Hneg].
    assert ((1 / inject_Z 15000 == 1 # 15000)%Q) as Hd by reflexivity.
    destruct (Qlt_le_dec 0 (e - 1 / inject_Z 15000)) as [Hlt | Hle].
    + rewrite (Hpos Hlt). lra.
    + rewrite (Hneg Hle). done.
  - intros n Hn. rewrite Hit. by apply exact_schedule.
  - rewrite Hit. by apply exact_schedule.
  - intros n Hn. rewrite Hit. by apply exact_schedule.
Qed.

(** *** In binary64, as CPython computes it *)

(** The two worked updates round to the same decimals in binary64: the
    bootstrapped value is the double nearest to 4.79, the terminal one is
    5.5. *)
Lemma update_binary64_examples :
  let half := PrimFloat.div PrimFloat.one PrimFloat.two in
  let st := [half; half] in
  let next_state := [PrimFloat.add PrimFloat.one half; half] in
  (self' ← update 2 unit_grid_binary64 st 0 PrimFloat.one next_state false;
   Ok (entry self' 0 0 0)) = Ok (Some 0x1.328f5c28f5c29p+2%float)
  ∧ (self' ← update 2 unit_grid_binary64 st 0 (float_of_Z 10) next_state true;
     Ok (entry self' 0 0 0)) = Ok (Some 0x1.6p+2%float).
Proof. split; vm_compute; reflexivity. Qed.

Lemma nonincreasing_run_spec (f : float → float) (n : nat) :
  ∀ e : float, nonincreasing_run f n e = true →
    ∀ k : nat, (k < n)%nat →
      PrimFloat.leb (Nat.iter (S k) f e) (Nat.iter k f e) = true.
Proof.
  induction n as [| n IH]; intros e Hrun k Hk; [lia |].
  cbn in Hrun. apply andb_true_iff in Hrun as [Hhead Htail].
  destruct k as [| k]; [done |].
  rewrite (Nat.iter_succ_r k _ f e), (Nat.iter_succ_r (S k) _ f e).
  apply IH; [done | lia].
Qed.

(** C5, on the code as it runs.  With the constants of [__init__]
    ([epsilon = 1], [num_episodes_decay = 15000], so a step of
    [1 / 15000]) and binary64 arithmetic, [epsilon] never increases, but
    after 15000 completed episodes it is still positive (about 9.06e-14):
    the quotient [1 / 15000] is rounded and the 15000 subtractions do not
    cancel exactly.  It is 0 one episode later, and from there on.
    ([train_loop_epsilon]: training for [n] episodes leaves [epsilon] at
    [epsilon_after n].) *)
Theorem epsilon_binary64_schedule (state0 : list float) (n_actions : nat)
    (low high : list float) (table : list (list (list float))) :
  let self := init state0 n_actions low high table in
  epsilon self = PrimFloat.one
  ∧ epsilon_decay self = PrimFloat.div PrimFloat.one (float_of_Z 15000)
  ∧ epsilon_after (Z.to_nat 15000) self = epsilon_residue
  ∧ PrimFloat.ltb PrimFloat.zero (epsilon_after (Z.to_nat 15000) self) = true
  ∧ PrimFloat.eqb (epsilon_after (Z.to_nat 15000) self) PrimFloat.zero = false
  ∧ (∀ k : nat,
       epsilon_after (k + Z.to_nat 15001) self = PrimFloat.zero)
  ∧ (∀ n : nat,
       PrimFloat.leb (epsilon_after (S n) self) (epsilon_after n self) = true).
Proof.
  intros self. unfold epsilon_after.
  assert (∀ n, epsilon (Nat.iter n decay_epsilon self)
               = Nat.iter n (epsilon_step (epsilon_decay self)) (epsilon self))
    as Hit by (intros n; apply decay_epsilon_iter).
  assert (∀ k, Nat.iter (k + Z.to_nat 15001)
                 (epsilon_step (epsilon_decay self)) (epsilon self)
               = PrimFloat.zero) as Hzero.
  { intros k. rewrite Nat.iter_add.
    replace (Nat.iter (Z.to_nat 15001) _ _) with PrimFloat.zero
      by (vm_compute; reflexivity).
    induction k as [| k IH]; [done |]. rewrite Nat.iter_succ, IH.
    vm_compute. reflexivity. }
  split; [reflexivity |]. split; [reflexivity |].
  split; [vm_compute; reflexivity |].
  split; [vm_compute; reflexivity |].
  split; [vm_compute; reflexivity |].
  split; [intros k; by rewrite Hit |].
  intros n. rewrite !Hit.
  destruct (le_lt_dec (Z.to_nat 15001) n) as [Hn | Hn].
  - assert (∃ k, n = (k + Z.to_nat 15001)%nat) as [k ->]
      by (exists (n - Z.to_nat 15001)%nat; lia).
    rewrite (Hzero k). rewrite <- Nat.add_succ_l, (Hzero (S k)). reflexivity.
  - apply (nonincreasing_run_spec _ (Z.to_nat 15001)); [| done].
    vm_compute. reflexivity.
Qed.

(** ** The discretiser in floating point

    The comparison of binary floats is an order on all of them but NaN;
    that is all the scan needs of it once the boundaries of a configuration
    have been computed. *)

Lemma SFltb_le_false (hi s b : spec_float) :
  SFltb hi s = false → SFleb hi b = true → SFltb b s = false.
Proof.
  unfold SFltb, SFleb, SFcompare.
  destruct hi as [[] | [] | | [] mh eh], s as [[] | [] | | [] ms es],
    b as [[] | [] | | [] mb eb]; try done; order_cases.
Qed.

Lemma SFltb_below (s lo b : spec_float) :
  SFltb s lo = true → SFleb lo b = true → SFltb b s = false.
Proof.
  unfold SFltb, SFleb, SFcompare.
  destruct lo as [[] | [] | | [] mh eh], s as [[] | [] | | [] ms es],
    b as [[] | [] | | [] mb eb]; try done; order_cases.
Qed.

Lemma SFltb_above (b' b s : spec_float) :
  SFleb b' b = true → SFltb b s = true → SFltb b' s = true.
Proof.
  unfold SFltb, SFleb, SFcompare.
  destruct b' as [[] | [] | | [] mh eh], s as [[] | [] | | [] ms es],
    b as [[] | [] | | [] mb eb]; try done; order_cases.
Qed.

(** A value above the [n]-th boundary is above the earlier ones when
    these are not above the [n]-th. *)
Lemma boundaries_below_last (lo w : spec_float) (n : nat) :
  forallb (λ j, SFleb (boundary lo w (S j)) (boundary lo w n)) (seq 0 n)
  = true →
  ∀ s : spec_float, SFltb (boundary lo w n) s = true →
    ∀ j : nat, (j < n)%nat → SFltb (boundary lo w (S j)) s = true.
Proof.
  intros Hall s Hs j Hj. rewrite forallb_forall in Hall.
  apply (SFltb_above _ (boundary lo w n)); [| done].
  apply Hall, in_seq. lia.
Qed.

Section OffTable.
Context {R : Type} `{Number R}.

Lemma q_get_not_OutOfFuel (self : QAgent R) (c0 c1 a : Z) :
  q_get self c0 c1 a ≠ OutOfFuel.
Proof.
  unfold q_get.
  destruct (getitem (q_table self) c0) as [plane | |] eqn:Hp; cbn;
    [| done | by apply getitem_not_OutOfFuel in Hp].
  destruct (getitem plane c1) as [row | |] eqn:Hr; cbn;
    [| done | by apply getitem_not_OutOfFuel in Hr].
  apply getitem_not_OutOfFuel.
Qed.

(** A cell with an index at or beyond the bucket count of its dimension
    cannot be read. *)
Lemma off_table_get (self : QAgent R) (cell : list Z) :
  table_shape self →
  (∃ (i : nat) (k : Z) (n : positive),
     cell !! i = Some k ∧ discrete_sizes self !! i = Some n ∧ Zpos n ≤ k) →
  ∀ a : Z,
    (c0 ← getitem cell 0; c1 ← getitem cell 1; q_get self c0 c1 a)
    = IndexError.
Proof.
  intros (n0 & n1 & Hsizes & Hn0 & Hplanes) (i & k & n & Hk & Hn & Hge) a.
  rewrite Hsizes in Hn.
  destruct (getitem cell 0) as [c0 | |] eqn:H0; cbn [mbind result_bind];
    [| done | by apply getitem_not_OutOfFuel in H0].
  destruct (getitem cell 1) as [c1 | |] eqn:H1; cbn [mbind result_bind];
    [| done | by apply getitem_not_OutOfFuel in H1].
  apply getitem_0_inv in H0 as [l' ->].
  apply getitem_1_inv in H1 as [rest ->].
  apply (q_get_above self n0 n1); [done | intros plane Hp; by apply Hplanes |].
  destruct i as [| [| i]]; cbn in Hk, Hn; [| | done].
  - left. injection Hk as ->. injection Hn as ->. done.
  - right. injection Hk as ->. injection Hn as ->. done.
Qed.

(** Neither the policy nor the update gets past such a cell. *)
Lemma off_table_raises (fuel : nat) (self : QAgent R) (st : list R)
    (cell : list Z) :
  table_shape self →
  get_state_index fuel self st = Ok cell →
  (∃ (i : nat) (k : Z) (n : positive),
     cell !! i = Some k ∧ discrete_sizes self !! i = Some n ∧ Zpos n ≤ k) →
  greedy_action fuel self st = IndexError
  ∧ (∀ action reward next_state,
       update fuel self st action reward next_state true = IndexError)
  ∧ (∀ action reward next_state ncell,
       get_state_index fuel self next_state = Ok ncell →
       update fuel self st action reward next_state false = IndexError).
Proof.
  intros Hshape Hc Hoff.
  pose proof (off_table_get self cell Hshape Hoff) as Hq.
  split; [| split].
  - unfold greedy_action. run_with Hc. specialize (Hq 0).
    destruct (getitem cell 0) as [c0 | |]; cbn [mbind result_bind] in *;
      [| done..].
    destruct (getitem cell 1) as [c1 | |]; cbn [mbind result_bind] in *;
      [| done..].
    by rewrite Hq.
  - intros action reward next_state. unfold update. run_with Hc.
    specialize (Hq action).
    destruct (getitem cell 0) as [c0 | |]; cbn [mbind result_bind] in *;
      [| done..].
    destruct (getitem cell 1) as [c1 | |]; cbn [mbind result_bind] in *;
      [| done..].
    by rewrite Hq.
  - intros action reward next_state ncell Hn. unfold update.
    run_with Hc. run_with Hn.
    destruct (getitem ncell 0) as [n0 | |] eqn:H0; cbn [mbind result_bind];
      [| done | by apply getitem_not_OutOfFuel in H0].
    destruct (getitem ncell 1) as [n1 | |] eqn:H1; cbn [mbind result_bind];
      [| done | by apply getitem_not_OutOfFuel in H1].
    destruct (q_get self n0 n1 0) as [q0 | |] eqn:Hq0; cbn [mbind result_bind];
      [| done | by apply q_get_not_OutOfFuel in Hq0].
    destruct (q_get self n0 n1 1) as [q1 | |] eqn:Hq1; cbn [mbind result_bind];
      [| done | by apply q_get_not_OutOfFuel in Hq1].
    destruct (q_get self n0 n1 2) as [q2 | |] eqn:Hq2; cbn [mbind result_bind];
      [| done | by apply q_get_not_OutOfFuel in Hq2].
    specialize (Hq action).
    destruct (getitem cell 0) as [c0 | |]; cbn [mbind result_bind] in *;
      [| done..].
    destruct (getitem cell 1) as [c1 | |]; cbn [mbind result_bind] in *;
      [| done..].
    by rewrite Hq.
Qed.

End OffTable.

(** *** Mountain Car in binary32 *)

Lemma mountain_car_binary32_position (s0 s1 : spec_float) :
  scan_at mountain_car_binary32 [s0; s1] 0 s0 position_low32 position_width32.
Proof. split; [done | done |]. by eexists _, _. Qed.

Lemma mountain_car_binary32_velocity (s0 s1 : spec_float) :
  scan_at mountain_car_binary32 [s0; s1] 1 s1 velocity_low32 velocity_width32.
Proof. split; [done | done |]. by eexists _, _. Qed.

Lemma mountain_car_binary32_shape : table_shape mountain_car_binary32.
Proof.
  exists 25%positive, 25%positive. split; [reflexivity |].
  split; [reflexivity |].
  intros plane [-> _]%elem_of_replicate. split; [reflexivity |].
  by intros row [-> _]%elem_of_replicate.
Qed.

Lemma mountain_car_binary64_shape : table_shape mountain_car_binary64.
Proof.
  exists 25%positive, 25%positive. split; [reflexivity |].
  split; [reflexivity |].
  intros plane [-> _]%elem_of_replicate. split; [reflexivity |].
  by intros row [-> _]%elem_of_replicate.
Qed.

Lemma mountain_car_binary32_entry (i j a : nat) :
  (i < 25)%nat → (j < 25)%nat → (a < 3)%nat →
  ∃ v, entry mountain_car_binary32 i j a = Some v.
Proof.
  destruct mountain_car_binary32_shape as (n0 & n1 & Hsizes & Hn0 & Hplanes).
  injection Hsizes as <- <-. intros Hi Hj Ha.
  apply (shape_entry mountain_car_binary32 25 25); [done | done | | |];
    cbn; lia.
Qed.

(** On which side of the boundaries the scan computes the bounds lie: the
    first boundary is not below [low]; the 25th position boundary is not
    below [high[0]], the 25th velocity boundary is, and the 26th is not;
    the boundaries up to the 25th do not exceed it. *)
Lemma mountain_car_binary32_edges :
  SFleb position_low32 (boundary position_low32 position_width32 1) = true
  ∧ SFleb velocity_low32 (boundary velocity_low32 velocity_width32 1) = true
  ∧ SFleb position_high32 (boundary position_low32 position_width32 25) = true
  ∧ SFltb (boundary velocity_low32 velocity_width32 25) velocity_high32 = true
  ∧ SFleb velocity_high32 (boundary velocity_low32 velocity_width32 26) = true
  ∧ forallb (λ j, SFleb (boundary position_low32 position_width32 (S j))
                    (boundary position_low32 position_width32 25))
      (seq 0 25) = true
  ∧ forallb (λ j, SFleb (boundary velocity_low32 velocity_width32 (S j))
                    (boundary velocity_low32 velocity_width32 25))
      (seq 0 25) = true.
Proof. repeat split; vm_compute; reflexivity. Qed.

Lemma mountain_car_binary32_high (extra : nat) :
  get_state_index (26 + extra) mountain_car_binary32
    [position_high32; velocity_high32] = Ok [24; 25].
Proof. apply (more_fuel_from 26 extra). vm_compute. reflexivity. Qed.

Lemma mountain_car_binary32_start (extra : nat) :
  get_state_index (26 + extra) mountain_car_binary32
    (state mountain_car_binary32) = Ok [9; 12].
Proof. apply (more_fuel_from 26 extra). vm_compute. reflexivity. Qed.

Lemma mountain_car_binary64_high (extra : nat) :
  get_state_index (26 + extra) mountain_car_binary64
    (observation_space_high mountain_car_binary64) = Ok [25; 24].
Proof. apply (more_fuel_from 26 extra). vm_compute. reflexivity. Qed.

Lemma mountain_car_binary64_start (extra : nat) :
  get_state_index (26 + extra) mountain_car_binary64
    (state mountain_car_binary64) = Ok [9; 12].
Proof. apply (more_fuel_from 26 extra). vm_compute. reflexivity. Qed.

Lemma velocity_off_table :
  ∃ (i : nat) (k : Z) (n : positive),
    [24; 25] !! i = Some k
    ∧ discrete_sizes mountain_car_binary32 !! i = Some n ∧ Zpos n ≤ k.
Proof.
  exists 1%nat, 25, 25%positive.
  split; [reflexivity |]. split; [reflexivity | lia].
Qed.

Lemma position_off_table :
  ∃ (i : nat) (k : Z) (n : positive),
    [25; 24] !! i = Some k
    ∧ discrete_sizes mountain_car_binary64 !! i = Some n ∧ Zpos n ≤ k.
Proof.
  exists 0%nat, 25, 25%positive.
  split; [reflexivity |]. split; [reflexivity | lia].
Qed.

(** Every observation not above [high] is given a cell, within 26 tests
    per dimension; the velocity index can be 25. *)
Lemma mountain_car_binary32_returns (s0 s1 : spec_float) :
  SFltb position_high32 s0 = false → SFltb velocity_high32 s1 = false →
  ∃ c0 c1 : Z,
    (∀ fuel : nat, (26 ≤ fuel)%nat →
       get_state_index fuel mountain_car_binary32 [s0; s1] = Ok [c0; c1])
    ∧ 0 ≤ c0 ≤ 24 ∧ 0 ≤ c1 ≤ 25.
Proof.
  intros H0 H1.
  destruct mountain_car_binary32_edges as (_ & _ & Hp & _ & Hv & _).
  destruct (dimension_stops mountain_car_binary32 [s0; s1] 0 s0
              position_low32 position_width32 24
              (mountain_car_binary32_position s0 s1)
              (SFltb_le_false _ _ _ H0 Hp)) as (k0 & Hk0 & _ & Hd0).
  destruct (dimension_stops mountain_car_binary32 [s0; s1] 1 s1
              velocity_low32 velocity_width32 25
              (mountain_car_binary32_velocity s0 s1)
              (SFltb_le_false _ _ _ H1 Hv)) as (k1 & Hk1 & _ & Hd1).
  exists (Z.of_nat k0), (Z.of_nat k1). split; [| lia].
  intros fuel Hf. apply get_state_index_two; [reflexivity | |].
  - apply (Hd0 fuel). lia.
  - apply (Hd1 fuel). lia.
Qed.

(** Components below [low] and components above the 25th boundary. *)
Lemma mountain_car_binary32_outside (fuel : nat) (s0 s1 : spec_float)
    (cell : list Z) :
  get_state_index fuel mountain_car_binary32 [s0; s1] = Ok cell →
  (SFltb s0 position_low32 = true → cell !! 0%nat = Some 0)
  ∧ (SFltb s1 velocity_low32 = true → cell !! 1%nat = Some 0)
  ∧ (SFltb (boundary position_low32 position_width32 25) s0 = true →
     ∃ k : Z, cell !! 0%nat = Some k ∧ 25 ≤ k)
  ∧ (SFltb (boundary velocity_low32 velocity_width32 25) s1 = true →
     ∃ k : Z, cell !! 1%nat = Some k ∧ 25 ≤ k).
Proof.
  intros Hc.
  destruct mountain_car_binary32_edges
    as (Hp1 & Hv1 & _ & _ & _ & Hpall & Hvall).
  pose proof (mountain_car_binary32_position s0 s1) as Hsp.
  pose proof (mountain_car_binary32_velocity s0 s1) as Hsv.
  assert (0 < observation_space_size mountain_car_binary32)%nat as Hi0
    by (cbn; lia).
  assert (1 < observation_space_size mountain_car_binary32)%nat as Hi1
    by (cbn; lia).
  split; [| split; [| split]].
  - intros Hs. apply (cell_first fuel _ _ _ _ _ _ _ Hc Hsp Hi0).
    exact (SFltb_below _ _ _ Hs Hp1).
  - intros Hs. apply (cell_first fuel _ _ _ _ _ _ _ Hc Hsv Hi1).
    exact (SFltb_below _ _ _ Hs Hv1).
  - intros Hs. apply (cell_beyond fuel _ _ _ _ _ _ _ 25 Hc Hsp Hi0).
    exact (boundaries_below_last _ _ 25 Hpall s0 Hs).
  - intros Hs. apply (cell_beyond fuel _ _ _ _ _ _ _ 25 Hc Hsv Hi1).
    exact (boundaries_below_last _ _ 25 Hvall s1 Hs).
Qed.

(** A position below [low[0]] is put in the first bucket, and the table
    is read and written there. *)
Lemma mountain_car_binary32_below (s0 s1 : spec_float) :
  SFltb s0 position_low32 = true →
  SFltb (boundary velocity_low32 velocity_width32 25) s1 = false →
  ∃ c1 : Z, 0 ≤ c1 ≤ 24
    ∧ ∀ fuel : nat, (26 ≤ fuel)%nat →
        get_state_index fuel mountain_car_binary32 [s0; s1] = Ok [0; c1]
        ∧ (∃ u : Z, greedy_action fuel mountain_car_binary32 [s0; s1] = Ok u)
        ∧ ∀ (action : Z) (reward : spec_float) (next_state : list spec_float),
            0 ≤ action < 3 →
            ∃ self', update fuel mountain_car_binary32 [s0; s1] action reward
                       next_state true = Ok self'.
Proof.
  intros H0 H1.
  destruct mountain_car_binary32_edges as (Hp1 & _).
  pose proof (mountain_car_binary32_position s0 s1) as Hsp.
  assert (stops_at s0 position_low32 position_width32 0) as Hstop0.
  { split; [intros j Hj; lia |]. exact (SFltb_below _ _ _ H0 Hp1). }
  destruct (dimension_stops mountain_car_binary32 [s0; s1] 1 s1
              velocity_low32 velocity_width32 24
              (mountain_car_binary32_velocity s0 s1) H1)
    as (k1 & Hk1 & _ & Hd1).
  exists (Z.of_nat k1). split; [lia |]. intros fuel Hf.
  assert (get_state_index fuel mountain_car_binary32 [s0; s1]
          = Ok [0; Z.of_nat k1]) as Hc.
  { apply get_state_index_two; [reflexivity | |].
    - apply (dimension_stops_at fuel _ _ 0 s0 position_low32
               position_width32 0 Hsp); [lia | done].
    - apply (Hd1 fuel). lia. }
  split; [done |]. split.
  - destruct (mountain_car_binary32_entry 0 k1 0) as [q0 Hq0]; [lia.. |].
    destruct (mountain_car_binary32_entry 0 k1 1) as [q1 Hq1]; [lia.. |].
    destruct (mountain_car_binary32_entry 0 k1 2) as [q2 Hq2]; [lia.. |].
    exists (greedy_choice q0 q1 q2).
    apply (greedy_action_run fuel _ _ 0 (Z.of_nat k1) []); [done | |  |];
      by rewrite Nat2Z.id.
  - intros action reward next_state Ha.
    destruct (mountain_car_binary32_entry 0 k1 (Z.to_nat action))
      as [old Hold]; [lia.. |].
    destruct (update_terminal_run fuel mountain_car_binary32 [s0; s1] action
                reward next_state 0 (Z.of_nat k1) [] old Hc ltac:(lia))
      as (self' & Hu & _); [by rewrite Nat2Z.id |].
    by exists self'.
Qed.

(** A position just above [high[0]] is still below the 25th boundary. *)
Lemma mountain_car_binary32_above (extra : nat) :
  get_state_index (26 + extra) mountain_car_binary32
    [position_above32; S754_zero false] = Ok [24; 12]
  ∧ greedy_action (26 + extra) mountain_car_binary32
      [position_above32; S754_zero false] = Ok 0.
Proof.
  assert (get_state_index (26 + extra) mountain_car_binary32
            [position_above32; S754_zero false] = Ok [24; 12]) as Hc
    by (apply (more_fuel_from 26 extra); vm_compute; reflexivity).
  split; [done |].
  apply (greedy_action_run _ _ _ 24 12 [] (S754_zero false) (S754_zero false)
           (S754_zero false) Hc); reflexivity.
Qed.

(** C3.  The claim that every observation within the bounds gets a valid
    cell index fails at the upper bounds.  The observation
    [observation_space.high] of Mountain Car, [0.6, 0.07] in [float32], lies
    within the bounds, and with the 25 buckets of [__init__] the scan in
    binary32 returns the cell [24, 25]: the velocity index equals the
    bucket count, and reading the table there raises [IndexError].  When
    the scan runs in binary64 on the same bounds it is the position index
    that comes out as 25.  The 25 additions of the rounded width do not
    reach the upper bound, so the upper bound lies above the last boundary
    of the table. *)
Theorem get_state_index_high_off_table :
  forallb is_binary32
    [position_low32; velocity_low32; position_high32; velocity_high32] = true
  ∧ (SFleb position_low32 position_high32 = true
     ∧ SFleb velocity_low32 velocity_high32 = true)
  ∧ observation_space_high mountain_car_binary32
    = [position_high32; velocity_high32]
  ∧ discrete_sizes mountain_car_binary32 = [25; 25]%positive
  ∧ table_shape mountain_car_binary32
  ∧ SFltb (boundary velocity_low32 velocity_width32 25) velocity_high32
    = true
  ∧ (∀ extra : nat,
       get_state_index (26 + extra) mountain_car_binary32
         [position_high32; velocity_high32] = Ok [24; 25]
       ∧ greedy_action (26 + extra) mountain_car_binary32
           [position_high32; velocity_high32] = IndexError)
  ∧ (∀ extra : nat,
       get_state_index (26 + extra) mountain_car_binary64
         (observation_space_high mountain_car_binary64) = Ok [25; 24]
       ∧ greedy_action (26 + extra) mountain_car_binary64
           (observation_space_high mountain_car_binary64) = IndexError).
Proof.
  split; [reflexivity |].
  split; [split; reflexivity |]. split; [reflexivity |].
  split; [reflexivity |]. split; [exact mountain_car_binary32_shape |].
  destruct mountain_car_binary32_edges as (_ & _ & _ & Hlast & _).
  split; [exact Hlast |]. split.
  - intros extra. split; [apply mountain_car_binary32_high |].
    destruct (off_table_raises _ _ _ _ mountain_car_binary32_shape
                (mountain_car_binary32_high extra) velocity_off_table)
      as [Hg _].
    exact Hg.
  - intros extra. split; [apply mountain_car_binary64_high |].
    destruct (off_table_raises _ _ _ _ mountain_car_binary64_shape
                (mountain_car_binary64_high extra) position_off_table)
      as [Hg _].
    exact Hg.
Qed.

(** C8.  The claim that [update] raises no error for observations within
    the bounds fails at the upper bounds, by the defect of C3: with the
    Mountain Car bounds, a table of the declared shape 25 x 25 x 3 and the
    state [observation_space.high], [update] raises [IndexError] for every
    action and reward, in the terminal and in the bootstrapping branch,
    the next state being the in-range start [-0.5, 0]; in binary32 and in
    binary64. *)
Theorem update_high_raises :
  (forallb is_binary32
     (observation_space_high mountain_car_binary32
      ++ state mountain_car_binary32) = true
   ∧ SFleb position_low32 position_high32 = true
   ∧ SFleb velocity_low32 velocity_high32 = true)
  ∧ table_shape mountain_car_binary32
  ∧ actions mountain_car_binary32 = 3%nat
  ∧ (∀ (extra : nat) (action : Z) (reward : spec_float) (is_terminal : bool),
       update (26 + extra) mountain_car_binary32
         [position_high32; velocity_high32] action reward
         (state mountain_car_binary32) is_terminal = IndexError)
  ∧ (∀ (extra : nat) (action : Z) (reward : float) (is_terminal : bool),
       update (26 + extra) mountain_car_binary64
         (observation_space_high mountain_car_binary64) action reward
         (state mountain_car_binary64) is_terminal = IndexError).
Proof.
  split; [repeat split; reflexivity |].
  split; [exact mountain_car_binary32_shape |]. split; [reflexivity |].
  split.
  - intros extra action reward is_terminal.
    destruct (off_table_raises _ _ _ _ mountain_car_binary32_shape
                (mountain_car_binary32_high extra) velocity_off_table)
      as (_ & Hterm & Hboot).
    destruct is_terminal; [apply Hterm |].
    apply (Hboot _ _ _ [9; 12]), mountain_car_binary32_start.
  - intros extra action reward is_terminal.
    destruct (off_table_raises _ _ _ _ mountain_car_binary64_shape
                (mountain_car_binary64_high extra) position_off_table)
      as (_ & Hterm & Hboot).
    destruct is_terminal; [apply Hterm |].
    apply (Hboot _ _ _ [9; 12]), mountain_car_binary64_start.
Qed.

(** C4, as the code has it.  In any arithmetic: an index is never
    negative; a component not above the first boundary of its scan gets
    index 0; a component above the first [n] boundaries gets an index of at
    least [n]; and a cell with an index at or beyond the bucket count makes
    [greedy_action] and both branches of [update] raise [IndexError].  With
    the Mountain Car bounds in binary32: every component below [low[i]]
    gets index 0, and the table is read and written there without error
    when the other component falls in a bucket of the table too; every
    component above the 25th boundary gets an index of at least 25.
    That boundary is the sum the loop has accumulated, not [high[i]]: for
    the position it is 0.60000020, above [high[0]] = 0.60000002, and the
    position 0.60000008 in between, out of range, gets the valid index
    24. *)
Theorem get_state_index_outside_bounds :
  (∀ (R : Type) (N : Number R) (fuel : nat) (self : QAgent R) (st : list R)
     (cell : list Z),
     get_state_index fuel self st = Ok cell →
     Forall (λ k, 0 ≤ k) cell
     ∧ (∀ (i : nat) (s lo w : R),
          scan_at self st i s lo w → (i < observation_space_size self)%nat →
          ((s >? lo + w)%num = false → cell !! i = Some 0)
          ∧ ∀ n : nat,
              (∀ j : nat, (j < n)%nat →
                 (s >? boundary lo w (S j))%num = true) →
              ∃ k : Z, cell !! i = Some k ∧ Z.of_nat n ≤ k)
     ∧ (table_shape self →
        (∃ (i : nat) (k : Z) (n : positive),
           cell !! i = Some k ∧ discrete_sizes self !! i = Some n
           ∧ Zpos n ≤ k) →
        greedy_action fuel self st = IndexError
        ∧ (∀ action reward next_state,
             update fuel self st action reward next_state true = IndexError)
        ∧ (∀ action reward next_state ncell,
             get_state_index fuel self next_state = Ok ncell →
             update fuel self st action reward next_state false
             = IndexError)))
  ∧ (∀ (fuel : nat) (s0 s1 : spec_float) (cell : list Z),
       get_state_index fuel mountain_car_binary32 [s0; s1] = Ok cell →
       (SFltb s0 position_low32 = true → cell !! 0%nat = Some 0)
       ∧ (SFltb s1 velocity_low32 = true → cell !! 1%nat = Some 0)
       ∧ (SFltb (boundary position_low32 position_width32 25) s0 = true →
          ∃ k : Z, cell !! 0%nat = Some k ∧ 25 ≤ k)
       ∧ (SFltb (boundary velocity_low32 velocity_width32 25) s1 = true →
          ∃ k : Z, cell !! 1%nat = Some k ∧ 25 ≤ k))
  ∧ (∀ s0 s1 : spec_float,
       SFltb s0 position_low32 = true →
       SFltb (boundary velocity_low32 velocity_width32 25) s1 = false →
       ∃ c1 : Z, 0 ≤ c1 ≤ 24
         ∧ ∀ fuel : nat, (26 ≤ fuel)%nat →
             get_state_index fuel mountain_car_binary32 [s0; s1] = Ok [0; c1]
             ∧ (∃ u : Z,
                  greedy_action fuel mountain_car_binary32 [s0; s1] = Ok u)
             ∧ ∀ (action : Z) (reward : spec_float)
                 (next_state : list spec_float),
                 0 ≤ action < 3 →
                 ∃ self', update fuel mountain_car_binary32 [s0; s1] action
                            reward next_state true = Ok self')
  ∧ (boundary position_low32 position_width32 25
     = S754_finite false 10066333 (-24)
     ∧ is_binary32 position_above32 = true
     ∧ SFltb position_high32 position_above32 = true
     ∧ SFltb position_above32 (boundary position_low32 position_width32 25)
       = true
     ∧ ∀ extra : nat,
         get_state_index (26 + extra) mountain_car_binary32
           [position_above32; S754_zero false] = Ok [24; 12]
         ∧ greedy_action (26 + extra) mountain_car_binary32
             [position_above32; S754_zero false] = Ok 0).
Proof.
  split; [| split; [| split]].
  - intros R N fuel self st cell Hc.
    split; [exact (get_state_index_nonneg fuel self st cell Hc) |]. split.
    + intros i s lo w Hscan Hi. split.
      * exact (cell_first fuel self st cell i s lo w Hc Hscan Hi).
      * intros n Hup.
        exact (cell_beyond fuel self st cell i s lo w n Hc Hscan Hi Hup).
    + intros Hshape Hoff.
      exact (off_table_raises fuel self st cell Hshape Hc Hoff).
  - exact mountain_car_binary32_outside.
  - exact mountain_car_binary32_below.
  - split; [vm_compute; reflexivity |]. split; [reflexivity |].
    split; [reflexivity |]. split; [reflexivity |].
    exact mountain_car_binary32_above.
Qed.

Lemma get_state_index_outside_bounds_witness :
  (SFltb (S754_finite true 0x800000 (-22)) position_low32 = true
   ∧ SFltb (boundary velocity_low32 velocity_width32 25) (S754_zero false)
     = false
   ∧ SFltb (boundary position_low32 position_width32 25)
       (S754_finite false 0x800000 (-23)) = true
   ∧ forallb is_binary32
       [S754_finite true 0x800000 (-22); S754_finite false 0x800000 (-23)]
     = true)
  ∧ (∃ c1 : Z, 0 ≤ c1 ≤ 24
       ∧ ∀ fuel : nat, (26 ≤ fuel)%nat →
           get_state_index fuel mountain_car_binary32
             [S754_finite true 0x800000 (-22); S754_zero false] = Ok [0; c1]
           ∧ (∃ u : Z,
                greedy_action fuel mountain_car_binary32
                  [S754_finite true 0x800000 (-22); S754_zero false] = Ok u)
           ∧ ∀ (action : Z) (reward : spec_float)
               (next_state : list spec_float),
               0 ≤ action < 3 →
               ∃ self', update fuel mountain_car_binary32
                          [S754_finite true 0x800000 (-22); S754_zero false] action
                          reward next_state true = Ok self')
  ∧ (get_state_index 40 mountain_car_binary32
       [S754_finite false 0x800000 (-23); S754_zero false] = Ok [30; 12]
     ∧ ∃ k : Z, [30; 12] !! 0%nat = Some k ∧ 25 ≤ k)
  ∧ (Forall (λ k, 0 ≤ k) [30; 12]
     ∧ greedy_action 40 mountain_car_binary32
         [S754_finite false 0x800000 (-23); S754_zero false] = IndexError
     ∧ ∀ (action : Z) (reward : spec_float),
         update 40 mountain_car_binary32
           [S754_finite false 0x800000 (-23); S754_zero false] action reward
           (state mountain_car_binary32) false = IndexError).
Proof.
  assert (get_state_index 40 mountain_car_binary32
            [S754_finite false 0x800000 (-23); S754_zero false] = Ok [30; 12]) as Hc
    by (vm_compute; reflexivity).
  assert (get_state_index 40 mountain_car_binary32
            (state mountain_car_binary32) = Ok [9; 12]) as Hn
    by (vm_compute; reflexivity).
  split; [repeat split; reflexivity |]. split; [| split].
  - apply (proj1 (proj2 (proj2 get_state_index_outside_bounds))
             (S754_finite true 0x800000 (-22)) (S754_zero false)); reflexivity.
  - split; [exact Hc |].
    apply (proj1 (proj2 get_state_index_outside_bounds) 40%nat
             (S754_finite false 0x800000 (-23)) (S754_zero false) [30; 12] Hc).
    reflexivity.
  - destruct (proj1 get_state_index_outside_bounds spec_float
                binary32_number 40%nat mountain_car_binary32
                [S754_finite false 0x800000 (-23); S754_zero false] [30; 12] Hc)
      as (Hpos & _ & Hraise).
    split; [exact Hpos |].
    destruct (Hraise mountain_car_binary32_shape) as (Hg & _ & Hboot).
    { exists 0%nat, 30, 25%positive.
      split; [reflexivity |]. split; [reflexivity | lia]. }
    split; [exact Hg |]. intros action reward.
    exact (Hboot action reward (state mountain_car_binary32) [9; 12] Hn).
Defined.

(** C10, as the code has it.  In any arithmetic every index returned is
    non-negative, whatever the input; and the scan of a dimension ends as
    soon as one of its boundaries is not below the component: if the
    [(m+1)]-th is not, the scan returns an index of at most [m], the same
    for every number of tests above it.  With the Mountain Car bounds in
    binary32 that is so for every observation not above [high], any below
    [low] included: a cell is returned within 26 tests per dimension.
    Positive width alone does not end the loop: where [l + interval_size]
    rounds to [l] while the component is above it, the scan of that
    dimension returns for no number of tests. *)
Theorem get_state_index_stops :
  (∀ (R : Type) (N : Number R) (fuel : nat) (self : QAgent R) (st : list R)
     (cell : list Z),
     get_state_index fuel self st = Ok cell → Forall (λ k, 0 ≤ k) cell)
  ∧ (∀ (R : Type) (N : Number R) (self : QAgent R) (st : list R) (i : nat)
       (s lo w : R) (m : nat),
       scan_at self st i s lo w →
       (s >? boundary lo w (S m))%num = false →
       ∃ k : nat, (k ≤ m)%nat
         ∧ ∀ fuel : nat, (k < fuel)%nat →
             dimension fuel self st (Z.of_nat i) = Ok (Z.of_nat k))
  ∧ (∀ s0 s1 : spec_float,
       SFltb position_high32 s0 = false → SFltb velocity_high32 s1 = false →
       ∃ c0 c1 : Z,
         (∀ fuel : nat, (26 ≤ fuel)%nat →
            get_state_index fuel mountain_car_binary32 [s0; s1]
            = Ok [c0; c1])
         ∧ 0 ≤ c0 ≤ 24 ∧ 0 ≤ c1 ≤ 25)
  ∧ (∀ (R : Type) (N : Number R) (self : QAgent R) (st : list R) (i : nat)
       (s lo w : R),
       scan_at self st i s lo w →
       (s >? lo + w)%num = true → (lo + w)%num = lo →
       ∀ fuel : nat, dimension fuel self st (Z.of_nat i) = OutOfFuel).
Proof.
  split; [| split; [| split]].
  - intros R N fuel self st cell. apply get_state_index_nonneg.
  - intros R N self st i s lo w m Hscan Hm.
    destruct (dimension_stops self st i s lo w m Hscan Hm)
      as (k & Hk & _ & Hd).
    by exists k.
  - exact mountain_car_binary32_returns.
  - intros R N self st i s lo w. apply dimension_absorbed.
Qed.

Lemma get_state_index_stops_witness :
  (SFltb position_high32 (S754_finite true 0x800000 (-13)) = false
   ∧ SFltb velocity_high32 velocity_high32 = false
   ∧ is_binary32 (S754_finite true 0x800000 (-13)) = true)
  ∧ (∃ c0 c1 : Z,
       (∀ fuel : nat, (26 ≤ fuel)%nat →
          get_state_index fuel mountain_car_binary32
            [S754_finite true 0x800000 (-13); velocity_high32] = Ok [c0; c1])
       ∧ 0 ≤ c0 ≤ 24 ∧ 0 ≤ c1 ≤ 25)
  ∧ (∃ k : nat, (k ≤ 25)%nat
       ∧ ∀ fuel : nat, (k < fuel)%nat →
           dimension fuel mountain_car_binary32
             [position_high32; velocity_high32] (Z.of_nat 1)
           = Ok (Z.of_nat k))
  ∧ (∀ fuel : nat,
       dimension fuel far_binary32 [S754_finite false 0x800001 2]
         (Z.of_nat 0) = OutOfFuel)
  ∧ Forall (λ k, 0 ≤ k) [24; 25].
Proof.
  split; [repeat split; reflexivity |]. split; [| split; [| split]].
  - apply (proj1 (proj2 (proj2 get_state_index_stops))
             (S754_finite true 0x800000 (-13)) velocity_high32); reflexivity.
  - apply (proj1 (proj2 get_state_index_stops) spec_float binary32_number
             mountain_car_binary32 [position_high32; velocity_high32] 1%nat
             velocity_high32 velocity_low32 velocity_width32 25%nat).
    + apply mountain_car_binary32_velocity.
    + vm_compute. reflexivity.
  - apply (proj2 (proj2 (proj2 get_state_index_stops)) spec_float
             binary32_number far_binary32 [S754_finite false 0x800001 2]
             0%nat (S754_finite false 0x800001 2)
             (S754_finite false 0x800000 2)
             (S754_finite false 10737418 (-25))).
    + split; [reflexivity | reflexivity |].
      exists (S754_finite false 0x800002 2), 25%positive.
      split; [reflexivity |]. split; reflexivity.
    + reflexivity.
    + reflexivity.
  - apply (proj1 get_state_index_stops spec_float binary32_number 26%nat
             mountain_car_binary32 [position_high32; velocity_high32]).
    vm_compute. reflexivity.
Defined.

(** C10 as stated fails in floating point.  The bounds [2^25] and
    [2^25 + 8] in binary32 have positive width and the observation
    [2^25 + 4] is finite and lies within them; the interval size 0.32 is
    less than half the distance 4 between neighbouring numbers there, so
    [l + interval_size] rounds back to [l] and the loop does not end,
    however many tests it is given.  The same happens in binary64 with the
    bounds [2^53] and [2^53 + 4] and the observation [2^53 + 2]. *)
Lemma get_state_index_absorbed :
  (observation_space_low far_binary32 = [S754_finite false 0x800000 2]
   ∧ observation_space_high far_binary32 = [S754_finite false 0x800002 2]
   ∧ forallb is_binary32
       [S754_finite false 0x800000 2; S754_finite false 0x800001 2;
        S754_finite false 0x800002 2] = true
   ∧ SFltb (S754_finite false 0x800000 2) (S754_finite false 0x800002 2)
     = true
   ∧ SFleb (S754_finite false 0x800000 2) (S754_finite false 0x800001 2)
     = true
   ∧ SFleb (S754_finite false 0x800001 2) (S754_finite false 0x800002 2)
     = true
   ∧ ∀ fuel : nat,
       get_state_index fuel far_binary32 [S754_finite false 0x800001 2]
       = OutOfFuel)
  ∧ (PrimFloat.ltb 0x1p+53 0x1.0000000000002p+53 = true
     ∧ ∀ fuel : nat,
         get_state_index fuel far_binary64 [0x1.0000000000001p+53]%float
         = OutOfFuel).
Proof.
  split.
  - do 6 (split; [reflexivity |]). intros fuel.
    unfold get_state_index. cbn [far_binary32 init observation_space_size
      length replicate seq for_loop].
    change (Z.of_nat 0) with 0.
    rewrite (dimension_absorbed far_binary32 _ 0
               (S754_finite false 0x800001 2) (S754_finite false 0x800000 2)
               (S754_finite false 10737418 (-25))); [done | | done | done].
    split; [done | done |]. by eexists _, _.
  - split; [reflexivity |]. intros fuel.
    unfold get_state_index. cbn [far_binary64 init observation_space_size
      length replicate seq for_loop].
    change (Z.of_nat 0) with 0.
    rewrite (dimension_absorbed far_binary64 _ 0
               0x1.0000000000001p+53%float 0x1p+53%float
               ((0x1.0000000000002p+53 - 0x1p+53) / float_of_Z 25)%float);
      [done | | by vm_compute | by vm_compute].
    split; [done | done |]. by eexists _, _.
Qed.

(** * Further properties of the code *)

(** ** The discretiser: boundaries, cost, degenerate bounds, arity *)

(** X1.  In any arithmetic, the index of a dimension is the number of
    boundaries the scan finds below the component before the first one that
    is not: the component is above [low[i]] with [interval_size] added
    [j] times, one addition after the other, for every [j] from 1 to the
    index, and not above the next such sum.  Conversely such a count is
    what the scan returns as soon as it is given more tests than that. *)
Theorem get_state_index_first_boundary {R : Type} `{Number R}
    (self : QAgent R) (st : list R) (i : nat) (s lo w : R) :
  scan_at self st i s lo w →
  (∀ (fuel k : nat), (k < fuel)%nat → stops_at s lo w k →
     dimension fuel self st (Z.of_nat i) = Ok (Z.of_nat k))
  ∧ (∀ (fuel : nat) (cell : list Z),
       (i < observation_space_size self)%nat →
       get_state_index fuel self st = Ok cell →
       ∃ k : nat, cell !! i = Some (Z.of_nat k) ∧ (k < fuel)%nat
         ∧ (∀ j : nat, (j < k)%nat → (s >? boundary lo w (S j))%num = true)
         ∧ (s >? boundary lo w (S k))%num = false).
Proof.
  intros Hscan. split.
  - intros fuel k Hf Hk. by apply (dimension_stops_at fuel self st i s lo w).
  - intros fuel cell Hi Hc.
    destruct (cell_stops_at fuel self st cell i s lo w Hc Hscan Hi)
      as (k & Hk & Hf & Hup & Hdown).
    by exists k.
Qed.

Lemma get_state_index_first_boundary_witness :
  (∀ (fuel k : nat), (k < fuel)%nat →
     stops_at (S754_zero false) velocity_low32 velocity_width32 k →
     dimension fuel mountain_car_binary32
       [S754_finite true 0x800000 (-24); S754_zero false] (Z.of_nat 1)
     = Ok (Z.of_nat k))
  ∧ (∀ (fuel : nat) (cell : list Z),
       (1 < observation_space_size mountain_car_binary32)%nat →
       get_state_index fuel mountain_car_binary32
         [S754_finite true 0x800000 (-24); S754_zero false] = Ok cell →
       ∃ k : nat, cell !! 1%nat = Some (Z.of_nat k) ∧ (k < fuel)%nat
         ∧ (∀ j : nat, (j < k)%nat →
              (S754_zero false
               >? boundary velocity_low32 velocity_width32 (S j))%num = true)
         ∧ (S754_zero false
            >? boundary velocity_low32 velocity_width32 (S k))%num = false).
Proof.
  apply (get_state_index_first_boundary mountain_car_binary32
           [S754_finite true 0x800000 (-24); S754_zero false] 1
           (S754_zero false) velocity_low32 velocity_width32).
  apply mountain_car_binary32_velocity.
Defined.

(** X2.  In any arithmetic, the scan of a dimension that returns the index
    [k] has made exactly [k + 1] tests of its loop condition: cut after at
    most [k] of them it has not finished, and with any larger number it
    returns [k]. *)
Theorem dimension_cost {R : Type} `{Number R} (fuel : nat) (self : QAgent R)
    (st : list R) (i k : Z) :
  dimension fuel self st i = Ok k →
  0 ≤ k < Z.of_nat fuel
  ∧ ∀ fuel' : nat,
      dimension fuel' self st i =
        if decide (Z.of_nat fuel' ≤ k) then OutOfFuel else Ok k.
Proof.
  unfold dimension.
  destruct (getitem (observation_space_low self) i) as [lo | |];
    cbn [mbind result_bind]; [| done..].
  destruct (getitem (observation_space_high self) i) as [hi | |];
    cbn [mbind result_bind]; [| done..].
  destruct (getitem (discrete_sizes self) i) as [n | |];
    cbn [mbind result_bind]; [| done..].
  intros Hk.
  assert (∃ s, getitem st i = Ok s) as [s Hs].
  { destruct fuel as [| fuel]; [done |]. cbn in Hk.
    apply bind_Ok in Hk as (s & Hs & _). by exists s. }
  destruct (while_loop_Ok_scan st i s _ Hs _ _ _ _ Hk)
    as (m & Hkm & Hm & Hstop).
  rewrite Hkm. split; [lia |]. intros fuel'. case_decide as Hf.
  - apply (while_loop_cut st i s _ Hs). intros j Hj.
    apply Hstop. lia.
  - apply (while_loop_scan st i s _ Hs); [lia | done].
Qed.

Lemma dimension_cost_witness :
  0 ≤ 9 < Z.of_nat 26
  ∧ ∀ fuel' : nat,
      dimension fuel' mountain_car_binary32 (state mountain_car_binary32) 0 =
        if decide (Z.of_nat fuel' ≤ 9) then OutOfFuel else Ok 9.
Proof.
  apply (dimension_cost 26 mountain_car_binary32
           (state mountain_car_binary32) 0 9).
  vm_compute. reflexivity.
Defined.

(** With a width that is not positive the boundary never catches up. *)
Lemma while_loop_diverges (st : list Q) (i : Z) (s w : Q) :
  getitem st i = Ok s → (w <= 0)%Q →
  ∀ (fuel : nat) (x : Z) (l : Q),
    (l + w < s)%Q → while_loop fuel st i w x l = OutOfFuel.
Proof.
  intros Hs Hw. induction fuel as [| fuel IH]; intros x l Hl; [done |].
  rewrite (while_loop_unfold st i s w Hs).
  assert (Qle_bool s (l + w)%Q = false) as ->.
  { apply not_true_is_false. rewrite Qle_bool_iff. lra. }
  cbn. apply IH. lra.
Qed.

(** X3.  When a dimension has [high[i] <= low[i]] and the observation is
    above [low[i]], the scan of that dimension never ends, so the
    discretiser returns no cell however long it runs. *)
Theorem get_state_index_degenerate (self : QAgent Q) (st : list Q) (i : nat)
    (lo hi : Q) (n : positive) (s : Q) :
  dims_ok self →
  dim_at self st i lo hi n s → (hi <= lo)%Q → (lo < s)%Q →
  ∀ fuel : nat,
    dimension fuel self st (Z.of_nat i) = OutOfFuel
    ∧ ∀ cell, get_state_index fuel self st ≠ Ok cell.
Proof.
  intros Hok Hd Hle Hs fuel.
  assert (width lo hi n <= 0)%Q as Hw.
  { unfold width. apply Qle_shift_div_r; [reflexivity | lra]. }
  assert (dimension fuel self st (Z.of_nat i) = OutOfFuel) as Hdim.
  { destruct Hd as [Hlo Hhi Hn Hst]. unfold dimension.
    rewrite (getitem_nonneg _ _ _ Hlo), (getitem_nonneg _ _ _ Hhi),
      (getitem_nonneg _ _ _ Hn). cbn.
    apply (while_loop_diverges st (Z.of_nat i) s (width lo hi n)
             (getitem_nonneg _ _ _ Hst) Hw). lra. }
  split; [done |]. intros cell Hc.
  apply get_state_index_Ok in Hc as [_ Hin].
  destruct (Hin i) as (k & Hk & _); [| congruence].
  destruct Hok as [<- _]. apply lookup_lt_is_Some.
  rewrite (dim_low _ _ _ _ _ _ _ Hd). by eexists.
Qed.

Lemma get_state_index_degenerate_witness :
  dimension 1000 flat_velocity [1 # 2; 1 # 100]%Q (Z.of_nat 1) = OutOfFuel
  ∧ ∀ cell, get_state_index 1000 flat_velocity [1 # 2; 1 # 100]%Q ≠ Ok cell.
Proof.
  apply (get_state_index_degenerate flat_velocity [1 # 2; 1 # 100]%Q 1
           0 0 25 (1 # 100)).
  - repeat split.
  - by split.
  - discriminate.
  - reflexivity.
Defined.

Section Arity.
Context {R : Type} `{Number R}.

Lemma getitem_app {A} (l extra : list A) (i : nat) :
  (i < length l)%nat →
  getitem (l ++ extra) (Z.of_nat i) = getitem l (Z.of_nat i).
Proof.
  intros Hi. rewrite !getitem_nat. by rewrite lookup_app_l.
Qed.

Lemma while_loop_app (fuel : nat) (st extra : list R) (i : nat) (w : R) :
  (i < length st)%nat →
  ∀ (x : Z) (l : R),
    while_loop fuel (st ++ extra) (Z.of_nat i) w x l
    = while_loop fuel st (Z.of_nat i) w x l.
Proof.
  intros Hi. induction fuel as [| fuel IH]; intros x l; [done |].
  cbn. rewrite getitem_app by done.
  destruct (getitem st (Z.of_nat i)) as [s | |]; cbn; try done.
  by rewrite IH.
Qed.

Lemma for_loop_app (fuel : nat) (self : QAgent R) (st extra : list R)
    (n : nat) :
  ∀ (a : nat) (indices : list Z),
    (a + n ≤ length st)%nat →
    for_loop fuel self (st ++ extra) (seq a n) indices
    = for_loop fuel self st (seq a n) indices.
Proof.
  induction n as [| n IH]; intros a indices Hlen; [done |].
  cbn [seq for_loop]. unfold dimension.
  destruct (getitem (observation_space_low self) (Z.of_nat a));
    cbn [mbind result_bind]; try done.
  destruct (getitem (observation_space_high self) (Z.of_nat a));
    cbn [mbind result_bind]; try done.
  destruct (getitem (discrete_sizes self) (Z.of_nat a));
    cbn [mbind result_bind]; try done.
  rewrite while_loop_app by lia.
  destruct (while_loop _ _ _ _ _ _); cbn [mbind result_bind]; try done.
  destruct (setitem _ _ _); cbn [mbind result_bind]; try done.
  apply IH. lia.
Qed.

(** X4.  Only the first [observation_space_size] components of an
    observation are read: whatever follows them changes nothing, in any
    arithmetic. *)
Theorem get_state_index_ignores_extra (fuel : nat) (self : QAgent R)
    (st extra : list R) :
  (observation_space_size self ≤ length st)%nat →
  get_state_index fuel self (st ++ extra) = get_state_index fuel self st.
Proof.
  intros Hlen. unfold get_state_index. rewrite length_replicate.
  apply for_loop_app. lia.
Qed.


End Arity.

Lemma get_state_index_ignores_extra_witness :
  get_state_index 20 mountain_car ([-1 # 2; 0] ++ [7; 8; 9])%Q
  = get_state_index 20 mountain_car [-1 # 2; 0]%Q.
Proof.
  apply (get_state_index_ignores_extra 20 mountain_car [-1 # 2; 0]%Q).
  cbn. lia.
Defined.



(** ** The policy *)

Lemma greedy_action_range {R : Type} `{Number R} (fuel : nat)
    (self : QAgent R) (st : list R) (u : Z) :
  greedy_action fuel self st = Ok u → 0 ≤ u ≤ 2.
Proof.
  unfold greedy_action.
  intros (? & _ & (? & _ & (? & _ & (m & _ & (q1 & _ & Hu)%bind_Ok
    )%bind_Ok)%bind_Ok)%bind_Ok)%bind_Ok.
  destruct (num_gt q1 m); apply bind_Ok in Hu as (q2 & _ & Hu);
    injection Hu as <-; destruct (num_gt q2 _); lia.
Qed.

Lemma get_action_bounds {R : Type} `{Number R} (fuel : nat)
    (self : QAgent R) (rand : R) (pick action : Z) :
  0 ≤ pick ≤ 2 →
  get_action fuel self rand pick = Ok action → 0 ≤ action ≤ 2.
Proof.
  intros Hpick. unfold get_action. destruct (num_gt (epsilon self) rand).
  - by intros [= <-].
  - apply greedy_action_range.
Qed.

(** X6.  Whatever the state, the table and the arithmetic, an action
    [get_action] returns is one of 0, 1, 2, provided the random pick is
    ([random.randint(0, 2)] is); in particular the greedy action always
    is. *)
Theorem get_action_range {R : Type} `{Number R} (fuel : nat)
    (self : QAgent R) (rand : R) (pick action : Z) :
  0 ≤ pick ≤ 2 →
  (get_action fuel self rand pick = Ok action → 0 ≤ action ≤ 2)
  ∧ (greedy_action fuel self (state self) = Ok action → 0 ≤ action ≤ 2).
Proof.
  intros Hpick. split.
  - by apply get_action_bounds.
  - apply greedy_action_range.
Qed.

Lemma get_action_range_witness :
  get_action 2 unit_grid (3 # 2)%Q 1 = Ok 0 ∧ 0 ≤ 0 ≤ 2.
Proof.
  assert (get_action 2 unit_grid (3 # 2)%Q 1 = Ok 0) as Hrun
    by (vm_compute; reflexivity).
  split; [exact Hrun |].
  apply (proj1 (get_action_range 2 unit_grid (3 # 2)%Q 1 0 ltac:(lia))).
  exact Hrun.
Defined.

(** X7.  A freshly built agent ([epsilon = 1]) explores on every draw
    [rand < 1]: [get_action] returns the random pick and never looks at the
    table, so it cannot fail; and any agent whose [epsilon] is not above
    the draw acts greedily on its current state. *)
Theorem get_action_regimes :
  (∀ (fuel : nat) (state0 : list Q) (n_actions : nat) (low high : list Q)
     (table : list (list (list Q))) (rand : Q) (pick : Z),
     (rand < 1)%Q →
     get_action fuel (init state0 n_actions low high table) rand pick
     = Ok pick)
  ∧ (∀ (fuel : nat) (self : QAgent Q) (rand : Q) (pick : Z),
       (epsilon self <= rand)%Q →
       get_action fuel self rand pick
       = greedy_action fuel self (state self)).
Proof.
  split.
  - intros fuel state0 n_actions low high table rand pick Hr.
    unfold get_action.
    assert ((epsilon (init state0 n_actions low high table) >? rand)%num
            = true) as ->; [| done].
    apply Q_gt_true. exact Hr.
  - intros fuel self rand pick He. unfold get_action.
    assert ((epsilon self >? rand)%num = false) as ->; [| done].
    by apply Q_gt_false.
Qed.

Lemma get_action_regimes_witness :
  get_action 0 (init [] 3 [] [] []) (999 # 1000)%Q 2 = Ok 2
  ∧ get_action 2 (set_epsilon unit_grid 0%Q) 0%Q 1
    = greedy_action 2 (set_epsilon unit_grid 0%Q)
        (state (set_epsilon unit_grid 0%Q)).
Proof.
  split.
  - apply (proj1 get_action_regimes). reflexivity.
  - apply (proj2 get_action_regimes). discriminate.
Defined.

(** ** One step, one episode, a whole training run *)

Section Invariants.
Context {R : Type} `{Number R}.

Lemma same_setup_refl (self : QAgent R) : same_setup self self.
Proof. by split. Qed.

Lemma same_setup_trans (a b c : QAgent R) :
  same_setup a b → same_setup b c → same_setup a c.
Proof. intros [] []. split; congruence. Qed.

Lemma elem_of_insert_inv {A} (l : list A) (k : nat) (x y : A) :
  y ∈ <[k := x]> l → y = x ∨ y ∈ l.
Proof.
  intros (j & Hj)%list_elem_of_lookup_1.
  apply list_lookup_insert_Some in Hj as [(_ & -> & _) | (_ & Hj)];
    [by left | right]. by apply list_elem_of_lookup_2 in Hj.
Qed.

(** A write into the table keeps its shape. *)
Lemma q_set_shape (self self' : QAgent R) (c0 c1 a : Z) (v : R) :
  q_set self c0 c1 a v = Ok self' →
  table_shape self → table_shape self'.
Proof.
  unfold q_set.
  intros (plane & Hp%getitem_Ok_elem & (row & Hr%getitem_Ok_elem
    & (row' & (ka & _ & ->)%setitem_Ok & (plane' & (k1 & _ & ->)%setitem_Ok
    & (table' & (k0 & _ & ->)%setitem_Ok & Hu)%bind_Ok)%bind_Ok)%bind_Ok
    )%bind_Ok)%bind_Ok.
  injection Hu as <-.
  intros (n0 & n1 & Hsizes & Hn0 & Hplanes).
  exists n0, n1. cbn [discrete_sizes q_table actions set_q_table].
  split; [done |]. split; [by rewrite length_insert |].
  intros pl [-> | Hpl]%elem_of_insert_inv; [| by apply Hplanes].
  destruct (Hplanes plane Hp) as [Hlen Hrows].
  split; [by rewrite length_insert |].
  intros rw [-> | Hrw]%elem_of_insert_inv; [| by apply Hrows].
  rewrite length_insert. by apply Hrows.
Qed.

Lemma update_shape (fuel : nat) (self self' : QAgent R) (st : list R)
    (action : Z) (reward : R) (next_state : list R) (is_terminal : bool) :
  update fuel self st action reward next_state is_terminal = Ok self' →
  table_shape self → table_shape self'.
Proof.
  unfold update. intros (cell & _ & Hu)%bind_Ok. destruct is_terminal.
  - apply bind_Ok in Hu as (? & _ & (? & _ & (? & _ & Hu)%bind_Ok
      )%bind_Ok). exact (q_set_shape _ _ _ _ _ _ Hu).
  - apply bind_Ok in Hu as (? & _ & (? & _ & (? & _ & (? & _ & (? & _
      & (? & _ & (? & _ & (? & _ & (? & _ & Hu)%bind_Ok)%bind_Ok)%bind_Ok
      )%bind_Ok)%bind_Ok)%bind_Ok)%bind_Ok)%bind_Ok).
    exact (q_set_shape _ _ _ _ _ _ Hu).
Qed.

Lemma env_step_keeps (fuel : nat) (self : QAgent R) (rand : R) (pick : Z)
    (env : Z → step_result R) (r : QAgent R * bool) :
  env_step fuel self rand pick env = Ok r →
  same_setup self r.1 ∧ (table_shape self → table_shape r.1).
Proof.
  unfold env_step.
  intros (action & _ & (self' & Hu & Hr)%bind_Ok)%bind_Ok.
  injection Hr as <-. cbn [fst]. split.
  - apply update_fields in Hu as [t ->]. by split.
  - intros Hs. apply (update_shape _ _ _ _ _ _ _ _ Hu) in Hs.
    destruct Hs as (n0 & n1 & ? & ? & ?). by exists n0, n1.
Qed.

Lemma episode_loop_keeps (limit fuel : nat) (w : world R) :
  ∀ (self : QAgent R) (t : nat) (r : QAgent R * nat),
    episode_loop limit fuel w self t = Ok r →
    same_setup self r.1 ∧ (table_shape self → table_shape r.1)
    ∧ (t < r.2 ≤ t + limit)%nat.
Proof.
  induction limit as [| limit IH]; intros self t r Hr; [done |].
  cbn in Hr. apply bind_Ok in Hr as ([self1 done] & Hs & Hr).
  apply env_step_keeps in Hs as [Hsame Hshape]. cbn [fst] in Hsame, Hshape.
  destruct done.
  - injection Hr as <-. cbn. split; [done |]. split; [done | lia].
  - apply IH in Hr as (Hsame' & Hshape' & Ht).
    split; [by apply (same_setup_trans _ self1) |].
    split; [tauto | lia].
Qed.

(** X8.  A training run, whatever the environment and the random draws
    do, never changes the agent's configuration (dimensions, bounds, bucket
    counts, number of actions, alpha, gamma, the decay step), keeps the
    shape of the value table, and leaves [epsilon] where [n] ends of
    episode put it. *)
Theorem train_loop_invariants (n limit fuel : nat) (w : world R) :
  ∀ (self self' : QAgent R) (t ep : nat),
    train_loop n limit fuel w self t ep = Ok self' →
    same_setup self self'
    ∧ (table_shape self → table_shape self')
    ∧ epsilon self' = epsilon_after n self.
Proof.
  induction n as [| n IH]; intros self self' t ep Hr.
  - injection Hr as <-. split; [apply same_setup_refl | done].
  - pose proof (train_loop_epsilon _ _ _ _ _ _ _ _ Hr) as [_ Heps].
    cbn [train_loop] in Hr. apply bind_Ok in Hr as ([self1 t1] & Hep & Hr).
    apply episode_loop_keeps in Hep as (Hsame & Hshape & _).
    cbn [fst] in Hsame, Hshape.
    apply IH in Hr as (Hsame' & Hshape' & _).
    split; [| split; [| done]].
    + apply (same_setup_trans _ self1); [done |].
      destruct Hsame'. by split.
    + intros Hs. apply Hshape'. apply Hshape in Hs.
      destruct Hs as (n0 & n1 & ? & ? & ?). by exists n0, n1.
Qed.

End Invariants.

Lemma train_loop_invariants_witness :
  ∃ self' : QAgent Q,
    train_loop 2 1 2 one_step_world unit_grid 0 1 = Ok self'
    ∧ same_setup unit_grid self'
    ∧ (table_shape unit_grid → table_shape self')
    ∧ epsilon self' = epsilon_after 2 unit_grid.
Proof.
  eexists. split; [vm_compute; reflexivity |].
  apply (train_loop_invariants 2 1 2 one_step_world unit_grid _ 0%nat 1%nat).
  vm_compute. reflexivity.
Defined.

(** X9.  What one [env_step] does to the agent: the action is one of 0, 1,
    2; the current state becomes the environment's next state; the value
    returned is [terminated or truncated]; the table changes at most at
    the entry of (cell of the old state, action); [epsilon] and the
    configuration stay. *)
Theorem env_step_effect {R : Type} `{Number R} (fuel : nat)
    (self self' : QAgent R) (rand : R) (pick : Z)
    (env : Z → step_result R) (done : bool) :
  0 ≤ pick ≤ 2 →
  env_step fuel self rand pick env = Ok (self', done) →
  ∃ (action c0 c1 : Z) (rest : list Z),
    get_action fuel self rand pick = Ok action
    ∧ 0 ≤ action ≤ 2
    ∧ get_state_index fuel self (state self) = Ok (c0 :: c1 :: rest)
    ∧ state self' = sr_next_state (env action)
    ∧ done = sr_terminated (env action) || sr_truncated (env action)
    ∧ (∀ i j a : nat,
         (i, j, a) ≠ (Z.to_nat c0, Z.to_nat c1, Z.to_nat action) →
         entry self' i j a = entry self i j a)
    ∧ epsilon self' = epsilon self
    ∧ same_setup self self'.
Proof.
  intros Hpick Hstep.
  pose proof (env_step_keeps _ _ _ _ _ _ Hstep) as [Hsame _].
  pose proof (env_step_epsilon _ _ _ _ _ _ Hstep) as [Heps _].
  unfold env_step in Hstep.
  apply bind_Ok in Hstep as (action & Hact & Hstep).
  apply bind_Ok in Hstep as (self1 & Hu & Hr).
  injection Hr as <- <-.
  pose proof (get_action_bounds _ _ _ _ _ Hpick Hact) as Hrange.
  destruct (update_Ok_inv _ _ _ _ _ _ _ _ (proj1 Hrange) Hu)
    as (c0 & c1 & rest & new & Hc & Hupd).
  exists action, c0, c1, rest.
  split; [done |]. split; [done |]. split; [done |]. split; [done |].
  split; [done |]. split; [| by split].
  intros i j a Hne. apply (upd_frame _ _ _ _ _ _ Hupd i j a Hne).
Qed.

Lemma env_step_effect_witness :
  ∃ (self' : QAgent Q) (action c0 c1 : Z) (rest : list Z),
    env_step 2 unit_grid 0%Q 0 (w_step one_step_world 0) = Ok (self', true)
    ∧ get_action 2 unit_grid 0%Q 0 = Ok action
    ∧ 0 ≤ action ≤ 2
    ∧ get_state_index 2 unit_grid (state unit_grid) = Ok (c0 :: c1 :: rest)
    ∧ state self' = sr_next_state (w_step one_step_world 0 action)
    ∧ true = sr_terminated (w_step one_step_world 0 action)
             || sr_truncated (w_step one_step_world 0 action)
    ∧ (∀ i j a : nat,
         (i, j, a) ≠ (Z.to_nat c0, Z.to_nat c1, Z.to_nat action) →
         entry self' i j a = entry unit_grid i j a)
    ∧ epsilon self' = epsilon unit_grid
    ∧ same_setup unit_grid self'.
Proof.
  assert (∃ self', env_step 2 unit_grid 0%Q 0 (w_step one_step_world 0)
                   = Ok (self', true)) as [self' Hrun]
    by (eexists; vm_compute; reflexivity).
  destruct (env_step_effect 2 unit_grid self' 0%Q 0
              (w_step one_step_world 0) true ltac:(lia) Hrun)
    as (action & c0 & c1 & rest & Hrest).
  by exists self', action, c0, c1, rest.
Defined.

(** ** The exploration rate stays a probability *)

Lemma epsilon_step_bounds (d e : Q) :
  (0 <= d)%Q → (0 <= e)%Q →
  (0 <= epsilon_step d e)%Q ∧ (epsilon_step d e <= e)%Q.
Proof.
  intros Hd He. destruct (epsilon_step_Q d e) as [Hpos Hneg].
  destruct (Qlt_le_dec 0 (e - d)) as [Hlt | Hle].
  - rewrite (Hpos Hlt). split; lra.
  - rewrite (Hneg Hle). split; [apply Qle_refl | done].
Qed.

Lemma epsilon_iter_bounds (d e0 : Q) (n : nat) :
  (0 <= d)%Q → (0 <= e0)%Q →
  (0 <= Nat.iter n (epsilon_step d) e0)%Q
  ∧ (Nat.iter n (epsilon_step d) e0 <= e0)%Q.
Proof.
  intros Hd He. induction n as [| n [IH0 IH1]].
  - split; [done | apply Qle_refl].
  - rewrite Nat.iter_succ.
    destruct (epsilon_step_bounds d _ Hd IH0) as [Hs0 Hs1].
    split; [done | lra].
Qed.

(** X10.  For any agent whose [epsilon] and decay step are not negative,
    [epsilon] never becomes negative and never grows: after every episode
    it is between 0 and its previous value, hence between 0 and where it
    started; so it is after any successful training run. *)
Theorem epsilon_stays_bounded (self : QAgent Q) :
  (0 <= epsilon self)%Q → (0 <= epsilon_decay self)%Q →
  (∀ n : nat,
     (0 <= epsilon_after (S n) self)%Q
     ∧ (epsilon_after (S n) self <= epsilon_after n self)%Q
     ∧ (epsilon_after n self <= epsilon self)%Q)
  ∧ (∀ (n limit fuel : nat) (w : world Q) (self' : QAgent Q) (t ep : nat),
       train_loop n limit fuel w self t ep = Ok self' →
       (0 <= epsilon self')%Q ∧ (epsilon self' <= epsilon self)%Q).
Proof.
  intros He Hd. split.
  - intros n. unfold epsilon_after.
    rewrite !(proj2 (decay_epsilon_iter _ _)), Nat.iter_succ.
    destruct (epsilon_iter_bounds (epsilon_decay self) (epsilon self) n Hd He)
      as [H0 H1].
    destruct (epsilon_step_bounds (epsilon_decay self) _ Hd H0) as [Hs0 Hs1].
    done.
  - intros n limit fuel w self' t ep Hr.
    apply train_loop_epsilon in Hr as [_ ->]. unfold epsilon_after.
    rewrite (proj2 (decay_epsilon_iter _ _)).
    by apply epsilon_iter_bounds.
Qed.

Lemma epsilon_stays_bounded_witness :
  (∀ n : nat,
     (0 <= epsilon_after (S n) unit_grid)%Q
     ∧ (epsilon_after (S n) unit_grid <= epsilon_after n unit_grid)%Q
     ∧ (epsilon_after n unit_grid <= epsilon unit_grid)%Q)
  ∧ (∀ (n limit fuel : nat) (w : world Q) (self' : QAgent Q) (t ep : nat),
       train_loop n limit fuel w unit_grid t ep = Ok self' →
       (0 <= epsilon self')%Q ∧ (epsilon self' <= epsilon unit_grid)%Q).
Proof.
  apply (epsilon_stays_bounded unit_grid); discriminate.
Defined.

(** ** Updates in a row, bounded values, the action index *)

(** The discretiser does not look at the table. *)
Lemma for_loop_set_q_table {R : Type} `{Number R} (fuel : nat)
    (self : QAgent R) (t : list (list (list R))) (st : list R)
    (range : list nat) :
  ∀ indices : list Z,
    for_loop fuel (set_q_table self t) st range indices
    = for_loop fuel self st range indices.
Proof.
  induction range as [| a range IH]; intros indices; [done |].
  cbn [for_loop].
  change (dimension fuel (set_q_table self t) st (Z.of_nat a))
    with (dimension fuel self st (Z.of_nat a)).
  destruct (dimension fuel self st (Z.of_nat a)); cbn [mbind result_bind];
    try done.
  destruct (setitem _ _ _); cbn [mbind result_bind]; try done.
Qed.

Lemma get_state_index_set_q_table {R : Type} `{Number R} (fuel : nat)
    (self : QAgent R) (t : list (list (list R))) (st : list R) :
  get_state_index fuel (set_q_table self t) st = get_state_index fuel self st.
Proof. apply for_loop_set_q_table. Qed.










Section ActionIndex.
Context {R : Type} `{Number R}.

Lemma py_index_wrap (n : nat) (a : Z) :
  - Z.of_nat n ≤ a < 0 → py_index n a = py_index n (a + Z.of_nat n).
Proof.
  intros Ha. unfold py_index.
  rewrite (decide_False (P := 0 ≤ a < Z.of_nat n)) by lia.
  rewrite (decide_True (P := - Z.of_nat n ≤ a < 0)) by lia.
  rewrite (decide_True (P := 0 ≤ a + Z.of_nat n < Z.of_nat n)) by lia.
  f_equal. lia.
Qed.

Lemma py_index_outside (n : nat) (a : Z) :
  Z.of_nat n ≤ a ∨ a < - Z.of_nat n → py_index n a = IndexError.
Proof.
  intros Ha. unfold py_index.
  rewrite (decide_False (P := 0 ≤ a < Z.of_nat n)) by lia.
  by rewrite (decide_False (P := - Z.of_nat n ≤ a < 0)) by lia.
Qed.

Lemma getitem_wrap {A} (l : list A) (n : nat) (a : Z) :
  length l = n → - Z.of_nat n ≤ a < 0 →
  getitem l a = getitem l (a + Z.of_nat n).
Proof. intros <- Ha. unfold getitem. by rewrite py_index_wrap. Qed.

Lemma setitem_wrap {A} (l : list A) (n : nat) (a : Z) (v : A) :
  length l = n → - Z.of_nat n ≤ a < 0 →
  setitem l a v = setitem l (a + Z.of_nat n) v.
Proof. intros <- Ha. unfold setitem. by rewrite py_index_wrap. Qed.

Lemma getitem_outside {A} (l : list A) (n : nat) (a : Z) :
  length l = n → Z.of_nat n ≤ a ∨ a < - Z.of_nat n →
  getitem l a = IndexError.
Proof. intros <- Ha. unfold getitem. by rewrite py_index_outside. Qed.

(** Every row of a table of the declared shape has one entry per action. *)
Lemma shape_rows (self : QAgent R) (c0 c1 : Z)
    (plane : list (list R)) (row : list R) :
  table_shape self →
  getitem (q_table self) c0 = Ok plane → getitem plane c1 = Ok row →
  length row = actions self.
Proof.
  intros (n0 & n1 & _ & _ & Hplanes) Hp%getitem_Ok_elem Hr%getitem_Ok_elem.
  by apply (Hplanes plane Hp).
Qed.

Lemma q_get_wrap (self : QAgent R) (c0 c1 a : Z) :
  table_shape self → - Z.of_nat (actions self) ≤ a < 0 →
  q_get self c0 c1 a = q_get self c0 c1 (a + Z.of_nat (actions self)).
Proof.
  intros Hs Ha. unfold q_get.
  destruct (getitem (q_table self) c0) as [plane | |] eqn:Hp;
    cbn [mbind result_bind]; try done.
  destruct (getitem plane c1) as [row | |] eqn:Hr;
    cbn [mbind result_bind]; try done.
  pose proof (shape_rows self c0 c1 plane row Hs Hp Hr) as Hlen.
  by apply getitem_wrap.
Qed.

Lemma q_set_wrap (self : QAgent R) (c0 c1 a : Z) (v : R) :
  table_shape self → - Z.of_nat (actions self) ≤ a < 0 →
  q_set self c0 c1 a v = q_set self c0 c1 (a + Z.of_nat (actions self)) v.
Proof.
  intros Hs Ha. unfold q_set.
  destruct (getitem (q_table self) c0) as [plane | |] eqn:Hp;
    cbn [mbind result_bind]; try done.
  destruct (getitem plane c1) as [row | |] eqn:Hr;
    cbn [mbind result_bind]; try done.
  pose proof (shape_rows self c0 c1 plane row Hs Hp Hr) as Hlen.
  by rewrite (setitem_wrap row (actions self) a v Hlen Ha).
Qed.

Lemma q_get_outside (self : QAgent R) (c0 c1 a : Z) (v : R) :
  table_shape self →
  Z.of_nat (actions self) ≤ a ∨ a < - Z.of_nat (actions self) →
  q_get self c0 c1 a ≠ Ok v.
Proof.
  intros Hs Ha. unfold q_get.
  destruct (getitem (q_table self) c0) as [plane | |] eqn:Hp;
    cbn [mbind result_bind]; try done.
  destruct (getitem plane c1) as [row | |] eqn:Hr;
    cbn [mbind result_bind]; try done.
  pose proof (shape_rows self c0 c1 plane row Hs Hp Hr) as Hlen.
  by rewrite (getitem_outside row (actions self) a Hlen Ha).
Qed.

(** X13.  The action is an index into a row of the table, with numpy's
    rules: in a table of the declared shape a negative action
    [-actions <= action < 0] is not rejected, [update] treats it as
    [action + actions]; an action outside [-actions, actions) makes
    [update] fail, whatever the branch. *)
Theorem update_action_index (fuel : nat) (self : QAgent R) (st : list R)
    (action : Z) (reward : R) (next_state : list R) (is_terminal : bool) :
  table_shape self →
  (- Z.of_nat (actions self) ≤ action < 0 →
   update fuel self st action reward next_state is_terminal
   = update fuel self st (action + Z.of_nat (actions self)) reward
       next_state is_terminal)
  ∧ (Z.of_nat (actions self) ≤ action ∨ action < - Z.of_nat (actions self) →
     ∀ self', update fuel self st action reward next_state is_terminal
              ≠ Ok self').
Proof.
  intros Hs. split.
  - intros Ha. unfold update.
    destruct (get_state_index fuel self st) as [cell | |];
      cbn [mbind result_bind]; try done.
    destruct is_terminal.
    + destruct (getitem cell 0) as [c0 | |]; cbn [mbind result_bind];
        try done.
      destruct (getitem cell 1) as [c1 | |]; cbn [mbind result_bind];
        try done.
      rewrite <- (q_get_wrap self c0 c1 action Hs Ha).
      destruct (q_get self c0 c1 action); cbn [mbind result_bind]; try done.
      by apply q_set_wrap.
    + destruct (get_state_index fuel self next_state) as [ncell | |];
        cbn [mbind result_bind]; try done.
      destruct (getitem ncell 0) as [n0 | |]; cbn [mbind result_bind];
        try done.
      destruct (getitem ncell 1) as [n1 | |]; cbn [mbind result_bind];
        try done.
      destruct (q_get self n0 n1 0); cbn [mbind result_bind]; try done.
      destruct (q_get self n0 n1 1); cbn [mbind result_bind]; try done.
      destruct (q_get self n0 n1 2); cbn [mbind result_bind]; try done.
      destruct (getitem cell 0) as [c0 | |]; cbn [mbind result_bind];
        try done.
      destruct (getitem cell 1) as [c1 | |]; cbn [mbind result_bind];
        try done.
      rewrite <- (q_get_wrap self c0 c1 action Hs Ha).
      destruct (q_get self c0 c1 action); cbn [mbind result_bind]; try done.
      by apply q_set_wrap.
  - intros Ha self' Hu. unfold update in Hu.
    apply bind_Ok in Hu as (cell & _ & Hu). destruct is_terminal.
    + apply bind_Ok in Hu as (c0 & _ & (c1 & _ & (old & Hold & _)%bind_Ok
        )%bind_Ok). by apply (q_get_outside self c0 c1 action old Hs Ha).
    + apply bind_Ok in Hu as (? & _ & (? & _ & (? & _ & (? & _ & (? & _
        & (? & _ & (c0 & _ & (c1 & _ & (old & Hold & _)%bind_Ok)%bind_Ok
        )%bind_Ok)%bind_Ok)%bind_Ok)%bind_Ok)%bind_Ok)%bind_Ok).
      by apply (q_get_outside self c0 c1 action old Hs Ha).
Qed.

End ActionIndex.

Lemma update_action_index_witness :
  (- Z.of_nat (actions mountain_car) ≤ -1 < 0 →
   update 20 mountain_car [-1 # 2; 0]%Q (-1) (-1)%Q [] true
   = update 20 mountain_car [-1 # 2; 0]%Q
       (-1 + Z.of_nat (actions mountain_car)) (-1)%Q [] true)
  ∧ (Z.of_nat (actions mountain_car) ≤ -1
     ∨ -1 < - Z.of_nat (actions mountain_car) →
     ∀ self', update 20 mountain_car [-1 # 2; 0]%Q (-1) (-1)%Q [] true
              ≠ Ok self').
Proof.
  apply (update_action_index 20 mountain_car [-1 # 2; 0]%Q (-1) (-1)%Q []
           true).
  exact mountain_car_shape.
Defined.

(** ** A freshly built agent *)

Section Fresh.
Context {R : Type} `{Number R}.

Lemma lookup_tabulate {A} (f : nat → A) (n i : nat) :
  (f <$> seq 0 n) !! i = if decide (i < n)%nat then Some (f i) else None.
Proof.
  rewrite list_lookup_fmap. case_decide.
  - by rewrite lookup_seq_lt.
  - by rewrite lookup_seq_ge by lia.
Qed.

Lemma fresh_table_entry (state0 : list R) (n_actions : nat)
    (low high : list R) (draw : nat → nat → nat → R) (i j a : nat) :
  entry (fresh_agent state0 n_actions low high draw) i j a =
    if decide (i < 25 ∧ j < 25 ∧ a < n_actions)%nat
    then Some (draw i j a) else None.
Proof.
  unfold entry, row_at, fresh_agent, init, fresh_table. cbn [q_table].
  rewrite lookup_tabulate.
  destruct (decide (i < 25)%nat); cbn [mbind option_bind];
    [| by rewrite decide_False by lia].
  rewrite lookup_tabulate.
  destruct (decide (j < 25)%nat); cbn [mbind option_bind];
    [| by rewrite decide_False by lia].
  rewrite lookup_tabulate. destruct (decide (a < n_actions)%nat);
    [by rewrite decide_True by lia | by rewrite decide_False by lia].
Qed.

Lemma fresh_table_shape (state0 : list R) (n_actions : nat)
    (low high : list R) (draw : nat → nat → nat → R) :
  table_shape (fresh_agent state0 n_actions low high draw).
Proof.
  exists 25%positive, 25%positive. split; [reflexivity |].
  unfold fresh_agent, init, fresh_table. cbn [q_table actions].
  split; [by rewrite length_fmap, length_seq |].
  intros plane (i & -> & _)%list_elem_of_fmap.
  split; [by rewrite length_fmap, length_seq |].
  intros row (j & -> & _)%list_elem_of_fmap.
  by rewrite length_fmap, length_seq.
Qed.

End Fresh.

(** X14.  The agent [__init__] builds is well formed, in any arithmetic:
    it has as many dimensions as the first observation has components, the
    bucket counts [25, 25] and the given number of actions; its table has
    shape 25 x 25 x actions and holds exactly the numbers drawn; and with
    three actions [greedy_action] and both branches of [update] succeed
    whenever the discretiser puts the observations in cells with both
    indices below 25. *)
Theorem fresh_agent_ready {R : Type} `{Number R} (state0 : list R)
    (n_actions : nat) (low high : list R) (draw : nat → nat → nat → R) :
  let self := fresh_agent state0 n_actions low high draw in
  (observation_space_size self = length state0
   ∧ discrete_sizes self = [25; 25]%positive
   ∧ actions self = n_actions)
  ∧ table_shape self
  ∧ (∀ i j a : nat,
       entry self i j a =
         if decide (i < 25 ∧ j < 25 ∧ a < n_actions)%nat
         then Some (draw i j a) else None)
  ∧ (n_actions = 3%nat →
     ∀ (fuel : nat) (st : list R) (c0 c1 : Z),
       get_state_index fuel self st = Ok [c0; c1] → c0 < 25 → c1 < 25 →
       (∃ u, greedy_action fuel self st = Ok u)
       ∧ ∀ (action : Z) (reward : R) (next_state : list R)
           (is_terminal : bool) (n0 n1 : Z),
           0 ≤ action < 3 →
           get_state_index fuel self next_state = Ok [n0; n1] →
           n0 < 25 → n1 < 25 →
           ∃ self', update fuel self st action reward next_state
                      is_terminal = Ok self').
Proof.
  intros self. split; [done |].
  split; [apply fresh_table_shape |].
  split; [intros i j a; apply fresh_table_entry |].
  intros -> fuel st c0 c1 Hc H0 H1.
  destruct (cell_nonneg _ _ _ _ _ _ Hc) as [Hc0 Hc1].
  assert (∀ (d0 d1 a : Z), 0 ≤ d0 < 25 → 0 ≤ d1 < 25 → 0 ≤ a < 3 →
            ∃ v, entry self (Z.to_nat d0) (Z.to_nat d1) (Z.to_nat a) = Some v)
    as Hentry.
  { intros d0 d1 a Hd0 Hd1 Ha. unfold self. rewrite fresh_table_entry.
    rewrite decide_True by lia. by eexists. }
  split.
  - destruct (Hentry c0 c1 0) as [p0 Hp0]; [lia.. |].
    destruct (Hentry c0 c1 1) as [p1 Hp1]; [lia.. |].
    destruct (Hentry c0 c1 2) as [p2 Hp2]; [lia.. |].
    exists (greedy_choice p0 p1 p2).
    by apply (greedy_action_run fuel self st c0 c1 []).
  - intros action reward next_state is_terminal n0 n1 Ha Hn Hn0 Hn1.
    destruct (cell_nonneg _ _ _ _ _ _ Hn) as [Hn0' Hn1'].
    destruct (Hentry c0 c1 action) as [old Hold]; [lia.. |].
    destruct is_terminal.
    + destruct (update_terminal_run fuel self st action reward next_state
                  c0 c1 [] old Hc ltac:(lia) Hold) as (self' & Hrun & _).
      by exists self'.
    + destruct (Hentry n0 n1 0) as [q0 Hq0]; [lia.. |].
      destruct (Hentry n0 n1 1) as [q1 Hq1]; [lia.. |].
      destruct (Hentry n0 n1 2) as [q2 Hq2]; [lia.. |].
      destruct (update_bootstrap_run fuel self st action reward next_state
                  c0 c1 [] n0 n1 [] old q0 q1 q2 Hc Hn Hq0 Hq1 Hq2
                  ltac:(lia) Hold) as (self' & Hrun & _).
      by exists self'.
Qed.

Lemma fresh_agent_ready_witness :
  let self := fresh_agent [-0x1p-1; 0]%float 3
                [-0x1.333334p+0; -0x1.1eb852p-4]%float
                [0x1.333334p-1; 0x1.1eb852p-4]%float
                (λ _ _ _, (-1)%float) in
  get_state_index 26 self [-0x1p-1; 0]%float = Ok [9; 12]
  ∧ get_state_index 26 self [-0x1.f5c28f5c28f5cp-2; 0x1.47ae147ae147bp-7]%float
    = Ok [9; 14]
  ∧ (∃ u, greedy_action 26 self [-0x1p-1; 0]%float = Ok u)
  ∧ ∃ self', update 26 self [-0x1p-1; 0]%float 2 (-1)%float
               [-0x1.f5c28f5c28f5cp-2; 0x1.47ae147ae147bp-7]%float false
             = Ok self'.
Proof.
  intros self.
  assert (get_state_index 26 self [-0x1p-1; 0]%float = Ok [9; 12]) as Hc
    by (vm_compute; reflexivity).
  assert (get_state_index 26 self
            [-0x1.f5c28f5c28f5cp-2; 0x1.47ae147ae147bp-7]%float
          = Ok [9; 14]) as Hn by (vm_compute; reflexivity).
  split; [exact Hc |]. split; [exact Hn |].
  destruct (proj2 (proj2 (proj2
              (fresh_agent_ready [-0x1p-1; 0]%float 3
                 [-0x1.333334p+0; -0x1.1eb852p-4]%float
                 [0x1.333334p-1; 0x1.1eb852p-4]%float (λ _ _ _, (-1)%float))))
              eq_refl 26%nat [-0x1p-1; 0]%float 9 12 Hc
              ltac:(reflexivity) ltac:(reflexivity))
    as [Hg Hu].
  split; [exact Hg |].
  exact (Hu 2 (-1)%float
           [-0x1.f5c28f5c28f5cp-2; 0x1.47ae147ae147bp-7]%float false 9 14
           ltac:(lia) Hn ltac:(reflexivity) ltac:(reflexivity)).
Defined.

(** ** Evaluation *)

Section Evaluation.
Context {R : Type} `{Number R}.

Lemma agent_eval_loop_trace (limit fuel : nat) (self : QAgent R)
    (eval_step : nat → Z → step_result R) :
  ∀ (eval_state : list R) (t : nat) (trace : list Z),
    agent_eval_loop limit fuel self eval_step eval_state t = Ok trace →
    trace ≠ [] ∧ (length trace ≤ limit)%nat
    ∧ Forall (λ a, 0 ≤ a ≤ 2) trace.
Proof.
  induction limit as [| limit IH]; intros eval_state t trace Hr; [done |].
  cbn [agent_eval_loop] in Hr.
  apply bind_Ok in Hr as (action & Hact & Hr).
  apply greedy_action_range in Hact.
  destruct (sr_terminated _ || sr_truncated _).
  - injection Hr as <-. split; [done |]. split; [cbn; lia |].
    constructor; [done | constructor].
  - apply bind_Ok in Hr as (rest & Hrest & Hr). injection Hr as <-.
    apply IH in Hrest as (_ & Hlen & Hall).
    split; [done |]. split; [cbn; lia | by constructor].
Qed.

(** The discretiser reads the bounds and the bucket counts, nothing
    else of the agent. *)
Lemma get_state_index_same_bounds (fuel : nat) (self other : QAgent R)
    (st : list R) :
  observation_space_size other = observation_space_size self →
  observation_space_low other = observation_space_low self →
  observation_space_high other = observation_space_high self →
  discrete_sizes other = discrete_sizes self →
  get_state_index fuel other st = get_state_index fuel self st.
Proof.
  intros HD Hl Hh Hn. unfold get_state_index. rewrite HD.
  generalize (replicate (observation_space_size self) 0%Z) at 2 4.
  generalize (seq 0 (length (replicate (observation_space_size self) 0%Z))).
  intros range. induction range as [| a range IH]; intros indices; [done |].
  cbn [for_loop].
  assert (dimension fuel other st (Z.of_nat a)
          = dimension fuel self st (Z.of_nat a)) as ->
    by (unfold dimension; by rewrite Hl, Hh, Hn).
  destruct (dimension fuel self st (Z.of_nat a)); cbn [mbind result_bind];
    try done.
  destruct (setitem _ _ _); cbn [mbind result_bind]; try done.
Qed.

(** X15.  An evaluation pass that ends has sent the environment at least
    one action and at most [limit], each of them 0, 1 or 2; it is the same
    pass whatever [epsilon] is and whatever state the agent is in. *)
Theorem agent_eval_greedy (limit fuel : nat) (self : QAgent R)
    (eval_reset : list R) (eval_step : nat → Z → step_result R)
    (trace : list Z) :
  agent_eval limit fuel self eval_reset eval_step = Ok trace →
  trace ≠ [] ∧ (length trace ≤ limit)%nat
  ∧ Forall (λ a, 0 ≤ a ≤ 2) trace
  ∧ ∀ (e : R) (s : list R),
      agent_eval limit fuel (set_state (set_epsilon self e) s) eval_reset
        eval_step = Ok trace.
Proof.
  intros Hr. unfold agent_eval in *.
  destruct (agent_eval_loop_trace _ _ _ _ _ _ _ Hr) as (Hne & Hlen & Hall).
  split; [done |]. split; [done |]. split; [done |].
  intros e s. rewrite <- Hr. clear.
  generalize 0%nat. revert eval_reset.
  induction limit as [| limit IH]; intros eval_state t; [done |].
  cbn [agent_eval_loop].
  assert (greedy_action fuel (set_state (set_epsilon self e) s) eval_state
          = greedy_action fuel self eval_state) as ->.
  { unfold greedy_action.
    by rewrite (get_state_index_same_bounds fuel self
                  (set_state (set_epsilon self e) s)). }
  destruct (greedy_action fuel self eval_state) as [action | |];
    cbn [mbind result_bind]; try done.
  destruct (sr_terminated _ || sr_truncated _); [done |].
  by rewrite IH.
Qed.

End Evaluation.

Lemma agent_eval_greedy_witness :
  agent_eval 5 2 unit_grid [1 # 2; 1 # 2]%Q two_step_eval = Ok [0; 1]
  ∧ [0; 1] ≠ [] ∧ (length [0; 1] ≤ 5)%nat
  ∧ Forall (λ a, 0 ≤ a ≤ 2) [0; 1]
  ∧ ∀ (e : Q) (s : list Q),
      agent_eval 5 2 (set_state (set_epsilon unit_grid e) s)
        [1 # 2; 1 # 2]%Q two_step_eval = Ok [0; 1].
Proof.
  assert (agent_eval 5 2 unit_grid [1 # 2; 1 # 2]%Q two_step_eval
          = Ok [0; 1]) as Hrun by (vm_compute; reflexivity).
  split; [exact Hrun |].
  exact (agent_eval_greedy 5 2 unit_grid [1 # 2; 1 # 2]%Q two_step_eval
           [0; 1] Hrun).
Defined.

(** ** Order again, and updates that do not meet *)

(** X17.  The discretiser is monotone everywhere, not only within the
    bounds: with positive widths, a component that is not smaller gets an
    index that is not smaller, also below [low] and above [high]. *)
Theorem get_state_index_monotone_everywhere (fuel : nat) (self : QAgent Q)
    (sa sb : list Q) (ca cb : list Z) (i : nat) (lo hi : Q) (n : positive)
    (a b : Q) :
  dims_ok self →
  get_state_index fuel self sa = Ok ca →
  get_state_index fuel self sb = Ok cb →
  dim_at self sa i lo hi n a → dim_at self sb i lo hi n b →
  (lo < hi)%Q → (a <= b)%Q →
  ∃ ka kb : Z, ca !! i = Some ka ∧ cb !! i = Some kb ∧ ka ≤ kb.
Proof.
  intros Hok Hca Hcb Hda Hdb Hlt Hab.
  pose proof (width_pos lo hi n Hlt) as Hw. fold (width lo hi n) in Hw.
  assert (i < observation_space_size self)%nat as Hi.
  { destruct Hok as [<- _]. apply lookup_lt_is_Some.
    rewrite (dim_low _ _ _ _ _ _ _ Hda). by eexists. }
  destruct (passes_exists a (width lo hi n) lo Hw) as [ma Hpa].
  destruct (passes_exists b (width lo hi n) lo Hw) as [mb Hpb].
  exists (Z.of_nat ma), (Z.of_nat mb).
  split; [apply (cell_entry fuel self sa ca i lo hi n a); (done || lra) |].
  split; [apply (cell_entry fuel self sb cb i lo hi n b); (done || lra) |].
  apply inj_le, (passes_mono a b (width lo hi n) lo); (done || lra).
Qed.

Lemma get_state_index_monotone_everywhere_witness :
  ∃ ka kb : Z, [0; 12] !! 0%nat = Some ka ∧ [30; 12] !! 0%nat = Some kb
               ∧ ka ≤ kb.
Proof.
  apply (get_state_index_monotone_everywhere 40 mountain_car
           [-2; 0]%Q [1; 0]%Q [0; 12] [30; 12] 0 (-6 # 5) (3 # 5) 25 (-2) 1).
  - exact mountain_car_dims_ok.
  - vm_compute. reflexivity.
  - vm_compute. reflexivity.
  - by split.
  - by split.
  - reflexivity.
  - discriminate.
Defined.

(** X18.  Terminal updates of two different entries commute: done in
    either order they both succeed and leave tables with the same
    entries. *)
Theorem terminal_updates_commute (fuel : nat) (self : QAgent Q)
    (st1 st2 : list Q) (a1 a2 : Z) (r1 r2 : Q) (next1 next2 : list Q)
    (c0 c1 d0 d1 : Z) (old1 old2 : Q) :
  get_state_index fuel self st1 = Ok [c0; c1] →
  get_state_index fuel self st2 = Ok [d0; d1] →
  0 ≤ a1 → 0 ≤ a2 →
  entry self (Z.to_nat c0) (Z.to_nat c1) (Z.to_nat a1) = Some old1 →
  entry self (Z.to_nat d0) (Z.to_nat d1) (Z.to_nat a2) = Some old2 →
  (Z.to_nat c0, Z.to_nat c1, Z.to_nat a1)
  ≠ (Z.to_nat d0, Z.to_nat d1, Z.to_nat a2) →
  ∃ self12 self21 : QAgent Q,
    (self1 ← update fuel self st1 a1 r1 next1 true;
     update fuel self1 st2 a2 r2 next2 true) = Ok self12
    ∧ (self2 ← update fuel self st2 a2 r2 next2 true;
       update fuel self2 st1 a1 r1 next1 true) = Ok self21
    ∧ ∀ i j a : nat, entry self12 i j a = entry self21 i j a.
Proof.
  intros Hc Hd Ha1 Ha2 He1 He2 Hne.
  destruct (update_terminal_run fuel self st1 a1 r1 next1 c0 c1 [] old1
              Hc Ha1 He1) as (s1 & Hrun1 & Hu1).
  destruct (update_terminal_run fuel self st2 a2 r2 next2 d0 d1 [] old2
              Hd Ha2 He2) as (s2 & Hrun2 & Hu2).
  destruct (upd_fields _ _ _ _ _ _ Hu1) as [t1 Ht1].
  destruct (upd_fields _ _ _ _ _ _ Hu2) as [t2 Ht2].
  assert (entry s1 (Z.to_nat d0) (Z.to_nat d1) (Z.to_nat a2) = Some old2)
    as He2' by (rewrite (upd_frame _ _ _ _ _ _ Hu1); [done | congruence]).
  assert (entry s2 (Z.to_nat c0) (Z.to_nat c1) (Z.to_nat a1) = Some old1)
    as He1' by (by rewrite (upd_frame _ _ _ _ _ _ Hu2)).
  destruct (update_terminal_run fuel s1 st2 a2 r2 next2 d0 d1 [] old2)
    as (s12 & Hrun12 & Hu12);
    [by rewrite Ht1, get_state_index_set_q_table | done | done |].
  destruct (update_terminal_run fuel s2 st1 a1 r1 next1 c0 c1 [] old1)
    as (s21 & Hrun21 & Hu21);
    [by rewrite Ht2, get_state_index_set_q_table | done | done |].
  exists s12, s21.
  split; [by rewrite Hrun1 |]. split; [by rewrite Hrun2 |].
  assert (terminal_value s1 old2 r2 = terminal_value self old2 r2) as Hv2
    by (by rewrite Ht1).
  assert (terminal_value s2 old1 r1 = terminal_value self old1 r1) as Hv1
    by (by rewrite Ht2).
  intros i j a.
  destruct (decide ((i, j, a)
                    = (Z.to_nat d0, Z.to_nat d1, Z.to_nat a2)))
    as [Heq2 | Hne2];
    [| destruct (decide ((i, j, a)
                         = (Z.to_nat c0, Z.to_nat c1, Z.to_nat a1)))
         as [Heq1 | Hne1]].
  - injection Heq2 as -> -> ->.
    rewrite (upd_entry _ _ _ _ _ _ Hu12), Hv2.
    rewrite (upd_frame _ _ _ _ _ _ Hu21) by congruence.
    by rewrite (upd_entry _ _ _ _ _ _ Hu2).
  - injection Heq1 as -> -> ->.
    rewrite (upd_frame _ _ _ _ _ _ Hu12) by done.
    rewrite (upd_entry _ _ _ _ _ _ Hu1).
    by rewrite (upd_entry _ _ _ _ _ _ Hu21), Hv1.
  - rewrite (upd_frame _ _ _ _ _ _ Hu12) by done.
    rewrite (upd_frame _ _ _ _ _ _ Hu1) by done.
    rewrite (upd_frame _ _ _ _ _ _ Hu21) by done.
    by rewrite (upd_frame _ _ _ _ _ _ Hu2) by done.
Qed.

Lemma terminal_updates_commute_witness :
  ∃ self12 self21 : QAgent Q,
    (self1 ← update 2 unit_grid [1 # 2; 1 # 2]%Q 0 10%Q [] true;
     update 2 self1 [3 # 2; 1 # 2]%Q 1 (-1)%Q [] true) = Ok self12
    ∧ (self2 ← update 2 unit_grid [3 # 2; 1 # 2]%Q 1 (-1)%Q [] true;
       update 2 self2 [1 # 2; 1 # 2]%Q 0 10%Q [] true) = Ok self21
    ∧ ∀ i j a : nat, entry self12 i j a = entry self21 i j a.
Proof.
  apply (terminal_updates_commute 2 unit_grid [1 # 2; 1 # 2]%Q
           [3 # 2; 1 # 2]%Q 0 1 10%Q (-1)%Q [] [] 0 0 1 0 5%Q 2%Q).
  - vm_compute. reflexivity.
  - vm_compute. reflexivity.
  - lia.
  - lia.
  - reflexivity.
  - reflexivity.
  - discriminate.
Defined.
